(** * GoatCounter: the API handlers and the replay importer

    A shallow embedding of [handlers/api.go] (the [/api/v0/count],
    [/api/v0/export] and [/api/v0/export/{id}/download] handlers) and of
    [importReplay] from the import command, with the properties the
    specification states about them.

    Conventions.
    - A Go [string] is a [string]; a [map[K]V] is a [gmap K V]; a slice is a
      [list]; an [int32] is a [Z] with its wrap-around written out; a
      [float64] is a primitive [float]; a [time.Time] and a [time.Duration]
      are a [Z] of nanoseconds (a [time.Time] counts from the Unix epoch).
    - A handler is a function from its inputs and the state it touches to
      its outcome and the new state.
    - Functions of packages outside the two source files (the validator of
      a hit, the geo lookup, the URL encoder, ...) are [Variable]s of a
      [Section].

    Part I holds the definitions, Part II the properties. *)

From Stdlib Require Import ZArith Lia Ascii String.
From Stdlib Require Import Floats.PrimFloat Floats.FloatOps Floats.SpecFloat.
From stdpp Require Import gmap strings list pretty.

Local Open Scope Z_scope.

(** * Part I: the embedding *)

(** ** HTTP plumbing shared by the handlers *)

Module Http.

(** The values the handlers hand to [zhttp.JSON]. *)
#[warnings="-register-all"]
Inductive json :=
  | JNull
  | JNumber (n : Z)
  | JString (s : string)
  | JObject (fields : gmap string json).

(** [apiError{Error: msg}]: the [errors] field is [omitempty]. *)
Definition apiError (msg : string) : json :=
  JObject {[ "error"%string := JString msg ]}.

(** A [map[int]string] as encoding/json writes it: the keys become their
    decimal strings. *)
Definition intMapJSON (m : gmap nat string) : json :=
  JObject (kmap pretty (JString <$> m)).

(** An error a handler returns to [zhttp.Wrap] instead of writing the
    response itself. A [guru] error carries a status code; [Invalid] is a
    [zvalidate.Validator] with an error for one field. *)
Inductive error :=
  | Guru (code : Z) (msg : string)
  | Invalid (field msg : string)
  | Plain (msg : string).

(** What a handler did: returned an error, wrote a status and a JSON body,
    set a flash message and redirected ([zhttp.FlashError] then
    [zhttp.SeeOther]), or streamed a file under the headers it set. *)
Inductive outcome :=
  | Returned (e : error)
  | Wrote (code : Z) (body : json)
  | SeeOther (flash : string) (location : string)
  | Streamed (headers : gmap string string) (content : list Byte.byte).

Definition StatusAccepted : Z := 202.

End Http.

(** ** POST /api/v0/count *)

Module Count.
Import Http.

Record apiCountRequestHit := {
  Path : string;
  Title : string;
  Event : bool;
  Ref : string;
  Size : list float;
  Query : string;
  Bot : Z;
  Browser : string;
  Location : string;
  IP : string;
  CreatedAt : Z;
  Session : string;
}.

Record apiCountRequest := {
  NoSessions : bool;
  Hits : list apiCountRequestHit;
}.

(** Modelled from the spec: [goatcounter.Hit] is declared outside the two
    source files. These are the fields the handler assigns, and the derived
    fields of the specification's PageviewRecord (site, referrer scheme,
    first visit), which the handler leaves at their zero value. *)
Record Hit := {
  hSite : Z;
  hPath : string;
  hTitle : string;
  hRef : string;
  hRefScheme : option string;
  hEvent : bool;
  hSize : list float;
  hQuery : string;
  hBot : Z;
  hCreatedAt : Z;
  hBrowser : string;
  hLocation : string;
  hRemoteAddr : string;
  hUserSessionID : string;
  hFirstVisit : bool;
}.

(** Modelled from the spec: [goatcounter.Memstore] is the in-memory buffer
    of hits waiting for the next flush; [Append] adds one hit at its end. *)
Definition Memstore := list Hit.
Definition Append (m : Memstore) (h : Hit) : Memstore := m ++ [h].

Definition noSessionMsg : string :=
  "no session and browser and/or ip are blank: not counting unique visit".
Definition noHitsMsg : string := "no hits".
Definition maxHitsMsg : string :=
  "maximum amount of pageviews in one batch is 100".

Section Handler.
(** The request context (site, user, database handle, clock). *)
Variable Ctx : Type.
(** [geo(ip)]: the location of an address. *)
Variable geo : string → string.
(** [hit.Defaults(ctx)] fills in the derived fields in place. *)
Variable Defaults : Ctx → Hit → Hit.
(** [hit.Validate(ctx)]: [None] is a nil error, [Some msg] an error whose
    [Error()] is [msg]. *)
Variable Validate : Ctx → Hit → option string.

(** Lines 353-355: the location is looked up when only the address was
    sent. *)
Definition withLocation (a : apiCountRequestHit) : string :=
  if bool_decide (Location a = ""%string ∧ IP a ≠ ""%string)
  then geo (IP a) else Location a.

(** Lines 357-369: the hit literal. *)
Definition newHit (a : apiCountRequestHit) : Hit :=
  {| hSite := 0; hPath := Path a; hTitle := Title a; hRef := Ref a;
     hRefScheme := None; hEvent := Event a; hSize := Size a;
     hQuery := Query a; hBot := Bot a; hCreatedAt := CreatedAt a;
     hBrowser := Browser a; hLocation := withLocation a;
     hRemoteAddr := IP a; hUserSessionID := ""; hFirstVisit := false |}.

Definition setUserSessionID (h : Hit) (s : string) : Hit :=
  {| hSite := hSite h; hPath := hPath h; hTitle := hTitle h;
     hRef := hRef h; hRefScheme := hRefScheme h; hEvent := hEvent h;
     hSize := hSize h; hQuery := hQuery h; hBot := hBot h;
     hCreatedAt := hCreatedAt h; hBrowser := hBrowser h;
     hLocation := hLocation h; hRemoteAddr := hRemoteAddr h;
     hUserSessionID := s; hFirstVisit := hFirstVisit h |}.

(** Lines 371-378: the switch, on the hit and the error map. Its third case
    files an error and goes on to [Defaults] and [Validate] like the other
    two: there is no [continue] in it. *)
Definition sessionSwitch (noSessions : bool) (i : nat)
    (a : apiCountRequestHit) (hit : Hit) (errs : gmap nat string)
    : Hit * gmap nat string :=
  if bool_decide (Session a ≠ ""%string) then
    (setUserSessionID hit (Session a), errs)
  else if bool_decide (hBrowser hit ≠ ""%string ∧ IP a ≠ ""%string) then
    (hit, errs)
  else if negb noSessions then
    (hit, <[i := noSessionMsg]> errs)
  else (hit, errs).

(** Lines 352-388: one iteration of the loop over [args.Hits]. The error of
    [Validate] overwrites the entry of the switch and skips [Append]. *)
Definition countHit (ctx : Ctx) (noSessions : bool) (i : nat)
    (a : apiCountRequestHit) (st : gmap nat string * Memstore)
    : gmap nat string * Memstore :=
  let '(hit, errs) := sessionSwitch noSessions i a (newHit a) st.1 in
  let hit := Defaults ctx hit in
  match Validate ctx hit with
  | Some msg => (<[i := msg]> errs, st.2)
  | None => (errs, Append st.2 hit)
  end.

Fixpoint countLoop (ctx : Ctx) (noSessions : bool) (i : nat)
    (hits : list apiCountRequestHit) (st : gmap nat string * Memstore)
    : gmap nat string * Memstore :=
  match hits with
  | [] => st
  | a :: rest =>
      countLoop ctx noSessions (S i) rest (countHit ctx noSessions i a st)
  end.

(** Lines 390-398: the response once the loop is done. *)
Definition countResponse (errs : gmap nat string) : outcome :=
  if bool_decide (0 < size errs)%nat then
    Wrote 400 (JObject {[ "errors"%string := intMapJSON errs ]})
  else
    Wrote StatusAccepted (JObject {[ "status"%string := JString "ok" ]}).

(** Lines 327-399. [auth] is what [h.auth] returned and [decoded] what
    [zhttp.Decode] made of the body. *)
Definition count (ctx : Ctx) (auth : option error)
    (decoded : error + apiCountRequest) (mem : Memstore)
    : outcome * Memstore :=
  match auth with
  | Some e => (Returned e, mem)
  | None =>
    match decoded with
    | inl e => (Returned e, mem)
    | inr args =>
      if bool_decide (length (Hits args) = 0%nat) then
        (Wrote 400 (apiError noHitsMsg), mem)
      else if bool_decide (100 < length (Hits args))%nat then
        (Wrote 400 (apiError maxHitsMsg), mem)
      else
        let st := countLoop ctx (NoSessions args) 0 (Hits args) (∅, mem) in
        (countResponse st.1, st.2)
    end
  end.

(** *** Vocabulary of the properties *)

(** The third case of the switch applies: no session token, the browser or
    the address blank, and sessions not switched off. *)
Definition noSession (noSessions : bool) (a : apiCountRequestHit) : bool :=
  bool_decide (Session a = ""%string)
  && negb (bool_decide (Browser a ≠ ""%string ∧ IP a ≠ ""%string))
  && negb noSessions.

(** The hit as it stands when [Validate] looks at it (lines 353-380). *)
Definition prepared (ctx : Ctx) (a : apiCountRequestHit) : Hit :=
  Defaults ctx
    (if bool_decide (Session a ≠ ""%string)
     then setUserSessionID (newHit a) (Session a) else newHit a).

(** [Validate] has no objection to the hit. *)
Definition valid (ctx : Ctx) (a : apiCountRequestHit) : bool :=
  bool_decide (Validate ctx (prepared ctx a) = None).

(** The entry a hit leaves in the error map, if any. *)
Definition hitError (ctx : Ctx) (noSessions : bool)
    (a : apiCountRequestHit) : option string :=
  match Validate ctx (prepared ctx a) with
  | Some msg => Some msg
  | None => if noSession noSessions a then Some noSessionMsg else None
  end.

(** A hit fails validation when the switch files it under "no session" or
    [Validate] returns an error. *)
Definition failsValidation (ctx : Ctx) (noSessions : bool)
    (a : apiCountRequestHit) : Prop :=
  noSession noSessions a = true ∨ is_Some (Validate ctx (prepared ctx a)).

End Handler.

(** *** A concrete instance, for the examples *)

(** A validator that asks for a path and nothing else. *)
Definition pathRequired (_ : unit) (h : Hit) : option string :=
  if bool_decide (hPath h = ""%string) then Some "path: must be set"%string
  else None.
Definition noGeo (_ : string) : string := "".
Definition noDefaults (_ : unit) (h : Hit) : Hit := h.

(** A pageview with a path, a browser, an address and a session token. *)
Definition pageview (path browser ip session : string) : apiCountRequestHit :=
  {| Path := path; Title := ""; Event := false; Ref := ""; Size := [];
     Query := ""; Bot := 0; Browser := browser; Location := ""; IP := ip;
     CreatedAt := 0; Session := session |}.

(** The hit the handler makes of [pageview path "" "" ""]. *)
Definition bareHit (path : string) : Hit :=
  {| hSite := 0; hPath := path; hTitle := ""; hRef := ""; hRefScheme := None;
     hEvent := false; hSize := []; hQuery := ""; hBot := 0; hCreatedAt := 0;
     hBrowser := ""; hLocation := ""; hRemoteAddr := ""; hUserSessionID := "";
     hFirstVisit := false |}.

End Count.

(** ** POST /api/v0/export and GET /api/v0/export/{id}/download *)

Module Exports.
Import Http.

(** [goatcounter.Export], with the fields the API documents. *)
Record ExportT := {
  ID : Z;
  SiteID : Z;
  StartFromHitID : Z;
  LastHitID : option Z;
  Path : string;
  CreatedAt : Z;
  FinishedAt : option Z;
  NumRows : option Z;
  Size : option string;
  Hash : option string;
  Error : option string;
}.

Record apiExportRequest := { StartFromHitID' : Z }.

(** Modelled from the spec: the lifecycle of an export job,
    [pending → running → {done, failed}]. The package that stores exports
    is outside the two source files. *)
Inductive jobState := Pending | Running | Done | Failed.

Definition nonTerminal (s : jobState) : bool :=
  match s with Pending | Running => true | Done | Failed => false end.

(** Modelled from the spec: a stored export with its state. *)
Record ExportJob := { export : ExportT; state : jobState }.

(** A background task started by [bgrun.Run]: the export it is to write,
    for which site, to which file. Modelled from the spec: [Export.Run]
    (outside the two source files) "transitions to running" and then writes
    the file, so a task is a writer from the moment its run has begun
    ([wBegun]) until it ends. *)
Record writer := { wExport : Z; wSite : Z; wPath : string; wBegun : bool }.

(** The task once its run has begun. *)
Definition begun (wr : writer) : writer :=
  {| wExport := wExport wr; wSite := wSite wr; wPath := wPath wr;
     wBegun := true |}.

(** The exports table, the next free id, and the background tasks that have
    not finished, begun or not. *)
Record world := {
  jobs : gmap Z ExportJob;
  nextID : Z;
  writers : list writer;
}.

Definition noExports : world := {| jobs := ∅; nextID := 1; writers := [] |}.

(** Modelled from the spec: when a non-terminal export exists for the site,
    [create] either returns its handle or rejects with a conflict. The
    specification allows both. *)
Inductive conflictPolicy := Join | Reject.

Definition conflictError : error :=
  Guru 409 "an export is already in progress for this site".
Definition startFromError : error :=
  Invalid "startFrom" "must be 0 or higher".
Definition notFoundError : error := Guru 404 "Not Found".

Definition activeOn (site : Z) (j : ExportJob) : bool :=
  bool_decide (SiteID (export j) = site) && nonTerminal (state j).

(** The first non-terminal export of a site, if there is one. *)
Definition activeFor (site : Z) (js : gmap Z ExportJob) : option ExportJob :=
  snd <$> (snd <$> list_find (λ kj, activeOn site kj.2 = true) (map_to_list js)).

Section Store.
(** The output file of export [id] of site [site]. *)
Variable exportPath : Z → Z → string.
(** [goatcounter.Now()]. *)
Variable now : Z.

Definition newExport (site id startFrom : Z) : ExportT :=
  {| ID := id; SiteID := site; StartFromHitID := startFrom;
     LastHitID := None; Path := exportPath site id; CreatedAt := now;
     FinishedAt := None; NumRows := None; Size := None; Hash := None;
     Error := None |}.

(** Modelled from the spec: [Export.Create] (outside the two source files).
    It validates [startFrom ≥ 0], checks for a non-terminal export of the
    site (joining it or rejecting, by [policy]), and otherwise inserts a
    pending export. The file handle it returns is the export's [Path]. *)
Definition Create (policy : conflictPolicy) (site startFrom : Z) (w : world)
    : (error + ExportT) * world :=
  if bool_decide (startFrom < 0) then (inl startFromError, w)
  else match activeFor site (jobs w) with
  | Some j =>
      match policy with
      | Join => (inr (export j), w)
      | Reject => (inl conflictError, w)
      end
  | None =>
      let e := newExport site (nextID w) startFrom in
      (inr e,
       {| jobs := <[nextID w := {| export := e; state := Pending |}]> (jobs w);
          nextID := nextID w + 1; writers := writers w |})
  end.

(** [bgrun.Run(func() { export.Run(ctx, fp, false) })]: one more background
    task, whose run has not begun. *)
Definition spawn (e : ExportT) (w : world) : world :=
  {| jobs := jobs w; nextID := nextID w;
     writers := writers w ++
       [{| wExport := ID e; wSite := SiteID e; wPath := Path e;
           wBegun := false |}] |}.

Definition optNumber (o : option Z) : json :=
  match o with Some n => JNumber n | None => JNull end.
Definition optString (o : option string) : json :=
  match o with Some s => JString s | None => JNull end.

(** [zhttp.JSON(w, export)]. *)
Definition exportJSON (e : ExportT) : json :=
  JObject (list_to_map
    [("id"%string, JNumber (ID e)); ("site_id"%string, JNumber (SiteID e));
     ("start_from_hit_id"%string, JNumber (StartFromHitID e));
     ("last_hit_id"%string, optNumber (LastHitID e));
     ("path"%string, JString (Path e));
     ("created_at"%string, JNumber (CreatedAt e));
     ("finished_at"%string, optNumber (FinishedAt e));
     ("num_rows"%string, optNumber (NumRows e));
     ("size"%string, optString (Size e));
     ("hash"%string, optString (Hash e));
     ("error"%string, optString (Error e))]).

(** Lines 150-175 of [handlers/api.go]: [api.export]. Whenever [Create]
    returns without an error, the handler starts a background run with the
    handle it got. *)
Definition exportHandler (policy : conflictPolicy) (auth : option error)
    (decoded : error + apiExportRequest) (site : Z) (w : world)
    : outcome * world :=
  match auth with
  | Some e => (Returned e, w)
  | None =>
    match decoded with
    | inl e => (Returned e, w)
    | inr req =>
      match Create policy site (StartFromHitID' req) w with
      | (inl e, w') => (Returned e, w')
      | (inr e, w') => (Wrote StatusAccepted (exportJSON e), spawn e w')
      end
    end
  end.

Definition setState (id : Z) (s : jobState) (js : gmap Z ExportJob)
    : gmap Z ExportJob :=
  alter (λ j, {| export := export j; state := s |}) id js.

(** Modelled from the spec: what can happen to the exports of a server. A
    request reaches [exportHandler]; the run of a background task begins,
    which moves its export from pending to running (the state machine has
    no other way into running); a task whose run has begun ends, its export
    done or failed. Each is one atomic step. *)
Inductive step (policy : conflictPolicy) : world → world → Prop :=
  | step_request auth decoded site w :
      step policy w (exportHandler policy auth decoded site w).2
  | step_begin w k wr j :
      writers w !! k = Some wr →
      wBegun wr = false →
      jobs w !! wExport wr = Some j →
      state j = Pending →
      step policy w
        {| jobs := setState (wExport wr) Running (jobs w);
           nextID := nextID w; writers := <[k := begun wr]> (writers w) |}
  | step_end w k wr j (ok : bool) :
      writers w !! k = Some wr →
      wBegun wr = true →
      jobs w !! wExport wr = Some j →
      state j = Running →
      step policy w
        {| jobs := setState (wExport wr) (if ok then Done else Failed) (jobs w);
           nextID := nextID w; writers := delete k (writers w) |}.

(** The states a server can be in, from no exports at all. *)
Inductive reachable (policy : conflictPolicy) : world → Prop :=
  | reach_init : reachable policy noExports
  | reach_step w w' :
      reachable policy w → step policy w w' → reachable policy w'.

End Store.



(** *** The download handler *)

(** What [os.Open] returns. *)
Inductive openResult :=
  | Opened (content : list Byte.byte)
  | NotExist
  | OpenError (e : error).

(** [filepath.Base] on a Unix path. *)
Fixpoint stripSlashes (rev : list ascii) : list ascii :=
  match rev with
  | "/"%char :: rest => stripSlashes rest
  | _ => rev
  end.
Fixpoint lastElement (rev : list ascii) : list ascii :=
  match rev with
  | [] => []
  | "/"%char :: _ => []
  | c :: rest => c :: lastElement rest
  end.
Definition Base (path : string) : string :=
  if bool_decide (path = ""%string) then "."%string
  else
    let rev := stripSlashes (reverse (list_ascii_of_string path)) in
    let b := string_of_list_ascii (reverse (lastElement rev)) in
    if bool_decide (b = ""%string) then "/"%string else b.

Definition flashNoExport : string := "It looks like there is no export yet.".
Definition settingsExportTab : string := "/settings#tab-export".

(** Modelled from the spec: [Export.ByID] (outside the two source files)
    reads an export back by its id; an unknown id is "not found". *)
Definition ByID (js : gmap Z ExportJob) (id : Z) : error + ExportT :=
  match js !! id with
  | Some j => inr (export j)
  | None => inl notFoundError
  end.

Section Download.
(** [v.Integer("id", ...)]: the id of the URL, when it is a number. *)
Variable parseID : string → option Z.
(** [header.SetContentDisposition] with [Type: attachment]: the value of
    the header for a file name, or the error it returns. *)
Variable contentDisposition : string → error + string.

(** Lines 208-249: [api.exportDownload]. *)
Definition exportDownload (auth : option error) (idParam : string)
    (js : gmap Z ExportJob) (open : string → openResult) : outcome :=
  match auth with
  | Some e => Returned e
  | None =>
    match parseID idParam with
    | None => Returned (Invalid "id" "must be a whole number")
    | Some id =>
      match ByID js id with
      | inl e => Returned e
      | inr e =>
        match open (Path e) with
        | NotExist => SeeOther flashNoExport settingsExportTab
        | OpenError err => Returned err
        | Opened content =>
          match contentDisposition (Base (Path e)) with
          | inl err => Returned err
          | inr v =>
              Streamed
                (<["Content-Type"%string := "application/gzip"%string]>
                   {[ "Content-Disposition"%string := v ]})
                content
          end
        end
      end
    end
  end.

End Download.


(** *** A concrete instance, for the examples *)

Definition demoPath (site id : Z) : string :=
  "/tmp/goatcounter-export-" +:+ pretty site +:+ "-" +:+ pretty id +:+ ".csv.gz".
Definition demoParseID (s : string) : option Z :=
  if bool_decide (s = "1"%string) then Some 1
  else if bool_decide (s = "2"%string) then Some 2 else None.
Definition demoDisposition (file : string) : error + string :=
  inr ("attachment; filename=" +:+ file).

(** The world after one export request for site 1, after a second one
    while the first export is still pending, and after the run of the first
    task has begun. *)
Definition afterOne (policy : conflictPolicy) : world :=
  (exportHandler demoPath 0 policy None (inr {| StartFromHitID' := 0 |}) 1
     noExports).2.
Definition afterTwo (policy : conflictPolicy) : world :=
  (exportHandler demoPath 0 policy None (inr {| StartFromHitID' := 0 |}) 1
     (afterOne policy)).2.
Definition firstTask : writer :=
  {| wExport := 1; wSite := 1; wPath := demoPath 1 1; wBegun := false |}.
Definition afterBegin (policy : conflictPolicy) : world :=
  {| jobs := setState 1 Running (jobs (afterTwo policy));
     nextID := nextID (afterTwo policy);
     writers := <[0%nat := begun firstTask]> (writers (afterTwo policy)) |}.

(** A store with one pending export, whose (still empty) file exists. *)
Definition pendingStore : gmap Z ExportJob :=
  {[ 1 := {| export := newExport demoPath 0 1 1 0; state := Pending |} ]}.
Definition emptyFileAt (path : string) (p : string) : openResult :=
  if bool_decide (p = path) then Opened [] else NotExist.

End Exports.

(** ** The replay importer ([importReplay]) *)

Module Replay.
Import Http.

(** [time.Second], in nanoseconds. *)
Definition second : Z := 1000000000.
(** The zero [time.Time]: January 1 of year 1, 00:00:00 UTC. *)
Definition zeroTime : Z := -62135596800 * second.
(** [t.Unix()]. *)
Definition Unix (t : Z) : Z := t `div` second.

(** The value an [int32] holds after an operation whose exact result is
    [z]. *)
Definition wrap32 (z : Z) : Z := (z + 2 ^ 31) `mod` 2 ^ 32 - 2 ^ 31.

(** Line 660: [fmt.Sprintf("%d.%d.%d.%d", nextIP>>24, nextIP>>16%256,
    nextIP>>8%256, nextIP%256)]. [>>] and [%] bind alike in Go and group
    from the left; [>>] on an [int32] keeps the sign and [%] truncates. *)
Definition synthIP (n : Z) : string :=
  pretty (n ≫ 24) +:+ "." +:+ pretty ((n ≫ 16) `rem` 256) +:+ "." +:+
  pretty ((n ≫ 8) `rem` 256) +:+ "." +:+ pretty (n `rem` 256).

(** The fields of [http.Request] the importer sets. *)
Record Request := {
  Method : string;
  URL : string;
  Header : gmap string string;
  RemoteAddr : string;
}.

(** The variables of the loop over the rows (lines 619-621), with [start]. *)
Record loadState := {
  start : Z;
  nextIP : Z;
  ips : gmap string string;
  requests : gmap Z (list Request);
}.

(** A run-time panic of Go. *)
Inductive panic :=
  | IndexOutOfRange (index len : Z)
  | SliceBoundsOutOfRange (high len : Z).

(** How [importReplay] ends: it returns a code and an error, or panics. *)
Inductive ending :=
  | Exit (code : Z) (err : option error)
  | Panicked (p : panic).

(** One iteration of the replay loop: the virtual clock, the requests
    fired at it, and the sleep that followed (none after the last). *)
Record tick := {
  tNow : Z;
  tFired : list Request;
  tSlept : option Z;
}.

(** What a run did: how it ended ([None] while the replay loop is still
    going), the requests it built from the rows (in row order), and the
    iterations of the replay loop so far. *)
Record run := {
  result : option ending;
  built : list Request;
  ticks : list tick;
}.

Definition minInt64 : Z := - 2 ^ 63.

(** [time.Duration(f)]: the conversion of a [float64] to an [int64] drops
    the fraction. Outside of [int64] (and for NaN) the result depends on
    the platform; this is what amd64 gives. *)
Definition durationOf (f : float) : Z :=
  match Prim2SF f with
  | S754_zero _ => 0
  | S754_finite s m e =>
      let mag :=
        if bool_decide (0 ≤ e) then Z.pos m * 2 ^ e
        else Z.pos m `div` 2 ^ (- e) in
      let v := if s then - mag else mag in
      if bool_decide (- 2 ^ 63 ≤ v < 2 ^ 63) then v else minInt64
  | S754_infinity _ | S754_nan => minInt64
  end.

(** Lines 675-678. *)
Definition sleepFor (speed : float) : Z :=
  if PrimFloat.ltb 1%float speed
  then durationOf (PrimFloat.div 1000000000%float speed)
  else 1 * second.

(** Lines 658-663: the address of a session, a new one when the session was
    not seen before. *)
Definition assignIP (st : loadState) (session : string) : string * loadState :=
  match ips st !! session with
  | Some ip => (ip, st)
  | None =>
      let ip := synthIP (nextIP st) in
      (ip, {| start := start st; nextIP := wrap32 (nextIP st + 1);
              ips := <[session := ip]> (ips st);
              requests := requests st |})
  end.

(** Line 666: [requests[t] = append(requests[t], r)]. *)
Definition addRequest (t : Z) (r : Request) (m : gmap Z (list Request))
    : gmap Z (list Request) :=
  <[t := default [] (m !! t) ++ [r]]> m.

Definition eofError : error := Plain "EOF".

(** Lines 619-621: the state the loop over the rows starts from. *)
Definition initialLoad (start0 : Z) : loadState :=
  {| start := start0; nextIP := 0; ips := ∅; requests := ∅ |}.

Section Importer.
(** [goatcounter.ExportVersion]. *)
Variable ExportVersion : string.
(** [site.URL()]. *)
Variable siteURL : string.
(** [time.Parse(time.RFC3339, s)]: the time, or [None] for an error. *)
Variable parseRFC3339 : string → option Z.
(** [url.Values.Encode] of the values set, in the order they were set. *)
Variable encodeQuery : list (string * string) → string.

(** Line 613: the condition under which the file is refused. *)
Definition wrongVersion (header : list string) : bool :=
  match header with
  | [] => true
  | h :: _ => negb (String.prefix ExportVersion h)
  end.

(** Lines 614-616: building the error evaluates [header[0][:1]]. *)
Definition versionError (header : list string) : ending :=
  match header with
  | [] => Panicked (IndexOutOfRange 0 0)
  | EmptyString :: _ => Panicked (SliceBoundsOutOfRange 1 0)
  | String c _ :: _ =>
      Exit 1 (Some (Plain ("wrong version of CSV database: " +:+ String c ""
                           +:+ " (expected: " +:+ ExportVersion +:+ ")")))
  end.

Definition fieldsError (n : nat) : error :=
  Plain ("wrong number of fields: " +:+ pretty n +:+ " (want: 12)").

(** Lines 642-656. [http.NewRequest] is taken to succeed. *)
Definition newRequest (path title event bot ref size browser : string)
    (ip : string) : Request :=
  {| Method := "GET";
     URL := siteURL +:+ "/count?" +:+
            encodeQuery [("p", path); ("t", title); ("e", event);
                         ("b", bot); ("r", ref); ("s", size)]%string;
     Header := <["Content-Type"%string := "application/json"%string]>
                 {[ "User-Agent"%string := browser ]};
     RemoteAddr := ip |}.

(** Lines 630-666: one row. The first-visit flag, the referrer scheme and
    the location of the row are not used. *)
Definition loadRow (st : loadState) (row : list string)
    : error + (Request * loadState) :=
  match row with
  | [path; title; event; bot; session; firstVisit; ref; refScheme; browser;
     size; location; createdAt] =>
      let created := default zeroTime (parseRFC3339 createdAt) in
      let st :=
        if bool_decide (start st = zeroTime)
        then {| start := created; nextIP := nextIP st; ips := ips st;
                requests := requests st |}
        else st in
      let '(ip, st) := assignIP st session in
      let r := newRequest path title event bot ref size browser ip in
      inr (r, {| start := start st; nextIP := nextIP st; ips := ips st;
                 requests := addRequest (Unix created) r (requests st) |})
  | _ => inl (fieldsError (length row))
  end.

(** Lines 622-667: the loop over the rows. [reads] is what the successive
    [c.Read()] return before [io.EOF]. *)
Fixpoint loadLoop (reads : list (error + list string)) (st : loadState)
    : (error + loadState) * list Request :=
  match reads with
  | [] => (inr st, [])
  | inl e :: _ => (inl e, [])
  | inr row :: rest =>
      match loadRow st row with
      | inl e => (inl e, [])
      | inr (r, st') =>
          let '(res, rs) := loadLoop rest st' in (res, r :: rs)
      end
  end.

(** Lines 680-705: the replay loop, for at most [fuel] iterations. [wall k]
    is what [time.Now()] returns at the [k]-th evaluation of line 700. The
    result is the iterations made and whether the [break] was reached. *)
Fixpoint replayLoop (fuel : nat) (sleep : Z) (wall : nat → Z) (k : nat)
    (now : Z) (reqs : gmap Z (list Request)) : list tick * bool :=
  match fuel with
  | O => ([], false)
  | S fuel =>
      let fired := default [] (reqs !! Unix now) in
      let reqs := delete (Unix now) reqs in
      let now' := now + 1 * second in
      if bool_decide (wall k < now') then
        ([{| tNow := now; tFired := fired; tSlept := None |}], true)
      else
        let rest := replayLoop fuel sleep wall (S k) now' reqs in
        ({| tNow := now; tFired := fired; tSlept := Some sleep |} :: rest.1,
         rest.2)
  end.

Definition stopped (e : ending) (rs : list Request) : run :=
  {| result := Some e; built := rs; ticks := [] |}.

(** Lines 597-708. [deleteAll] is what [site.DeleteAll] returned, [reads]
    what the CSV reader returns before [io.EOF], [start0] the [-replay-start]
    time ([zeroTime] when the flag is not given). *)
Definition importReplay (fuel : nat) (deleteAll : option error)
    (reads : list (error + list string)) (speed : float) (start0 : Z)
    (wall : nat → Z) : run :=
  match deleteAll with
  | Some e => stopped (Exit 1 (Some e)) []
  | None =>
    match reads with
    | [] => stopped (Exit 1 (Some eofError)) []
    | inl e :: _ => stopped (Exit 1 (Some e)) []
    | inr header :: rows =>
      if wrongVersion header then stopped (versionError header) []
      else
        match loadLoop rows (initialLoad start0) with
        | (inl e, rs) => stopped (Exit 1 (Some e)) rs
        | (inr st, rs) =>
            let loop := replayLoop fuel (sleepFor speed) wall 0 (start st)
                          (requests st) in
            {| result := if loop.2 then Some (Exit 0 None) else None;
               built := rs; ticks := loop.1 |}
        end
    end
  end.

End Importer.

(** *** Vocabulary of the properties *)

(** The session column of a row. *)
Definition sessionOf (row : list string) : string := default ""%string (row !! 4%nat).

(** The distinct sessions of a list, in the order they were first seen. *)
Definition seeSession (seen : list string) (s : string) : list string :=
  if decide (s ∈ seen) then seen else seen ++ [s].
Definition firstSeen (ss : list string) : list string := foldl seeSession [] ss.

(** The address map of a state holds the [k]-th session of [seen] at the
    address made of the counter value [k], and the counter stands at the
    number of sessions. *)
Definition addressesOf (seen : list string) (st : loadState) : Prop :=
  nextIP st = wrap32 (Z.of_nat (length seen)) ∧ NoDup seen ∧
  ∀ s ip, ips st !! s = Some ip ↔
          ∃ k : nat, seen !! k = Some s ∧ ip = synthIP (wrap32 (Z.of_nat k)).

(** A dotted quad. *)
Definition dotted (a b c d : Z) : string :=
  pretty a +:+ "." +:+ pretty b +:+ "." +:+ pretty c +:+ "." +:+ pretty d.

(** A string without a dot. *)
Fixpoint nodot (s : string) : Prop :=
  match s with
  | EmptyString => True
  | String c s' => c ≠ "."%char ∧ nodot s'
  end.

(** A well-formed row whose session is the number [k]. *)
Definition rowOf (k : Z) : list string :=
  ["/"; ""; "0"; "0"; pretty k; "1"; ""; ""; "Mozilla/5.0"; "";
   ""; "2020-06-18T14:42:00Z"]%string.

(** [n] rows with the sessions [0], ..., [n-1]. *)
Definition manySessions (n : Z) : list (error + list string) :=
  inr <$> (rowOf <$> seqZ 0 n).

(** The virtual clock, [j + 1] seconds after [now], is past the wall clock
    as read in iteration [k + j] of the replay loop. *)
Definition passes (wall : nat → Z) (k : nat) (now : Z) (j : nat) : Prop :=
  wall (k + j)%nat < now + (Z.of_nat j + 1) * second.

(** A wall clock whose readings are [step] apart. *)
Definition steadyClock (t0 step : Z) (k : nat) : Z := t0 + Z.of_nat k * step.

(** *** A concrete instance, for the examples *)

Definition demoVersion : string := "1".
Definition demoURL : string := "http://test.example.com".
(** Every row carries the time 2020-06-18 14:42:00 UTC. *)
Definition demoTime : Z := 1592491320 * second.
Definition demoParse (_ : string) : option Z := Some demoTime.
Definition demoEncode (q : list (string * string)) : string :=
  String.concat "&" ((λ kv, kv.1 +:+ "=" +:+ kv.2) <$> q).
Definition demoHeader : list string :=
  ["1Path"; "Title"; "Event"; "Bot"; "Session"; "FirstVisit"; "Referrer";
   "Referrer scheme"; "Browser"; "Screen size"; "Location"; "Date"]%string.

(** The request of [rowOf k], for the address [ip]. *)
Definition demoRequest (ip : string) : Request :=
  newRequest demoURL demoEncode "/" "" "0" "0" "" "" "Mozilla/5.0" ip.

(** A file of one row, and what loading it leaves. *)
Definition oneRow : list (error + list string) := [inr demoHeader; inr (rowOf 0)].

(** Three rows of two sessions, and what loading them leaves. *)
Definition threeRows : list (list string) := [rowOf 7; rowOf 8; rowOf 7].
Definition threeRowsLoaded : loadState :=
  {| start := demoTime; nextIP := 2;
     ips := {[ "7"%string := "0.0.0.0"%string; "8"%string := "0.0.0.1"%string ]};
     requests := {[ 1592491320 := [demoRequest "0.0.0.0"; demoRequest "0.0.0.1";
                                   demoRequest "0.0.0.0"] ]} |}.

(** A wall clock well past the rows, one second further at each reading. *)
Definition lateClock : nat → Z := steadyClock (1600000000 * second) second.

End Replay.

(** ** Authorization ([api.auth]) *)

Module Auth.
Import Http.

(** [goatcounter.APITokenPermissions]: what a token may do, and what a
    handler asks for. *)
Record APITokenPermissions := { PermCount : bool; PermExport : bool }.

(** The fields of [goatcounter.APIToken] that [auth] reads. *)
Record APIToken := { TokenSiteID : Z; Permissions : APITokenPermissions }.

(** What a lookup returns: a row, no row at all ([zdb.ErrNoRows]), or
    another error. *)
Inductive found (A : Type) :=
  | Row (a : A)
  | NoRows
  | QueryError (e : error).
Arguments Row {A} a.
Arguments NoRows {A}.
Arguments QueryError {A} e.

Definition noHeaderError : error := Guru 403 "no Authorization header".
Definition wrongFormatError : error :=
  Guru 403 "wrong format for Authorization header".
Definition unknownTokenError : error := Guru 403 "unknown token".

(** Lines 85-91: the permissions asked for that the token lacks. *)
Definition need (perm have : APITokenPermissions) : list string :=
  (if PermCount perm && negb (PermCount have) then ["count"%string] else []) ++
  (if PermExport perm && negb (PermExport have) then ["export"%string] else []).

(** [%s] of a [[]string]. *)
Definition showStrings (l : list string) : string :=
  "[" +:+ String.concat " " l +:+ "]".

(** Line 94. *)
Definition needError (l : list string) : error :=
  Guru 403 ("requires " +:+ showStrings l +:+ " permissions").

(** The token covers what is asked for. *)
Definition covers (perm have : APITokenPermissions) : Prop :=
  (PermCount perm = true → PermCount have = true) ∧
  (PermExport perm = true → PermExport have = true).

Section Auth.
(** [goatcounter.User]. *)
Variable User : Type.
(** [strings.Fields]. *)
Variable Fields : string → list string.
(** [token.ByToken(ctx, s)]. *)
Variable ByToken : string → found APIToken.
(** [user.BySite(ctx, id)]. *)
Variable BySite : Z → error + User.

(** Lines 57-98. The result is the error returned ([None] for nil) and the
    user put in the context of the request, which line 83 does before it
    looks at the permissions. *)
Definition auth (header : string) (perm : APITokenPermissions)
    : option error * option User :=
  if bool_decide (header = ""%string) then (Some noHeaderError, None)
  else
    match Fields header with
    | [b0; b1] =>
      if bool_decide (b0 ≠ "Bearer"%string) then (Some wrongFormatError, None)
      else
        match ByToken b1 with
        | NoRows => (Some unknownTokenError, None)
        | QueryError e => (Some e, None)
        | Row token =>
          match BySite (TokenSiteID token) with
          | inl e => (Some e, None)
          | inr user =>
            let l := need perm (Permissions token) in
            if bool_decide (0 < length l)%nat
            then (Some (needError l), Some user)
            else (None, Some user)
          end
        end
    | _ => (Some wrongFormatError, None)
    end.

End Auth.
End Auth.

(** ** The handlers behind [auth], and GET /api/v0/export/{id} *)

Module Api.
Import Http Auth.

Definition permCount : APITokenPermissions :=
  {| PermCount := true; PermExport := false |}.
Definition permExport : APITokenPermissions :=
  {| PermCount := false; PermExport := true |}.

Section Get.
Variable parseID : string → option Z.

(** Lines 181-202: [api.exportGet]. [zhttp.JSON] writes the status 200. *)
Definition exportGet (auth : option error) (idParam : string)
    (js : gmap Z Exports.ExportJob) : outcome :=
  match auth with
  | Some e => Returned e
  | None =>
    match parseID idParam with
    | None => Returned (Invalid "id" "must be a whole number")
    | Some id =>
      match Exports.ByID js id with
      | inl e => Returned e
      | inr e => Wrote 200 (Exports.exportJSON e)
      end
    end
  end.

End Get.

Section Requests.
Variable User : Type.
Variable Fields : string → list string.
Variable ByToken : string → found APIToken.
Variable BySite : Z → error + User.
Variable Ctx : Type.
(** [goatcounter.WithUser]. *)
Variable WithUser : Ctx → User → Ctx.
Variable geo : string → string.
Variable Defaults : Ctx → Count.Hit → Count.Hit.
Variable Validate : Ctx → Count.Hit → option string.
Variable exportPath : Z → Z → string.
Variable now : Z.
Variable parseID : string → option Z.
Variable contentDisposition : string → error + string.

(** The context of the request once [auth] is through with it. *)
Definition contextAfter (ctx : Ctx) (user : option User) : Ctx :=
  match user with Some u => WithUser ctx u | None => ctx end.

(** [api.count] with its call of [h.auth] (lines 328-333): the header of
    the request in place of the result of [auth]. *)
Definition countRequest (ctx : Ctx) (header : string)
    (decoded : error + Count.apiCountRequest) (mem : Count.Memstore)
    : outcome * Count.Memstore :=
  let a := auth User Fields ByToken BySite header permCount in
  Count.count Ctx geo Defaults Validate (contextAfter ctx a.2) a.1 decoded mem.

(** [api.export] with its call of [h.auth] (lines 151-156). *)
Definition exportRequest (policy : Exports.conflictPolicy) (header : string)
    (decoded : error + Exports.apiExportRequest) (site : Z) (w : Exports.world)
    : outcome * Exports.world :=
  Exports.exportHandler exportPath now policy
    (auth User Fields ByToken BySite header permExport).1 decoded site w.

(** [api.exportGet] with its call of [h.auth] (lines 182-187). *)
Definition getRequest (header idParam : string)
    (js : gmap Z Exports.ExportJob) : outcome :=
  exportGet parseID (auth User Fields ByToken BySite header permExport).1
    idParam js.

(** [api.exportDownload] with its call of [h.auth] (lines 209-214). *)
Definition downloadRequest (header idParam : string)
    (js : gmap Z Exports.ExportJob) (open : string → Exports.openResult)
    : outcome :=
  Exports.exportDownload parseID contentDisposition
    (auth User Fields ByToken BySite header permExport).1 idParam js open.

End Requests.

(** *** A concrete instance, for the examples *)

(** A splitter for headers of two words with one space between them. *)
Fixpoint splitAtSpace (acc : string) (s : string) : list string :=
  match s with
  | EmptyString => [acc]
  | String c rest =>
      if bool_decide (c = " "%char) then acc :: splitAtSpace "" rest
      else splitAtSpace (acc +:+ String c "") rest
  end.
Definition demoFields (s : string) : list string := splitAtSpace "" s.

(** Two tokens of site 1: one that may count, one that may export. *)
Definition demoByToken (s : string) : found APIToken :=
  if bool_decide (s = "counter"%string)
  then Row {| TokenSiteID := 1; Permissions := permCount |}
  else if bool_decide (s = "exporter"%string)
  then Row {| TokenSiteID := 1; Permissions := permExport |}
  else NoRows.
Definition demoBySite (site : Z) : error + string :=
  if bool_decide (site = 1) then inr "admin"%string
  else inl (Plain "sql: no rows in result set").

End Api.

(** ** More vocabulary for the export handlers *)

Module ExportsView.

(** A name without a path separator in it. *)
Definition noSlash (s : string) : Prop :=
  Forall (λ c, c ≠ "/"%char) (list_ascii_of_string s).

End ExportsView.

(** ** More vocabulary for the replay importer *)

Module ReplayView.
Import Http Replay.

Section View.
Variable parseRFC3339 : string → option Z.

(** The time of a row: its last column as line 638 reads it. *)
Definition createdOf (row : list string) : Z :=
  default zeroTime (parseRFC3339 (default ""%string (row !! 11%nat))).

(** The requests of the rows whose time falls in the second [t], in the
    order of the rows. *)
Definition bucketOf (t : Z) (rows : list (list string)) (rs : list Request)
    : list Request :=
  (filter (λ p, Unix (createdOf p.1) = t) (zip rows rs)).*2.

(** The start of the replay: the start given, or else the time of the first
    row whose time is not the zero time. *)
Definition startOf (start0 : Z) (rows : list (list string)) : Z :=
  foldl (λ s row, if bool_decide (s = zeroTime) then createdOf row else s)
    start0 rows.

End View.

(** The error a read ends the loading with, if any: the error of the
    reader, or the wrong number of fields of the row (lines 627-632). *)
Definition readError (read : error + list string) : option error :=
  match read with
  | inl e => Some e
  | inr row =>
      if bool_decide (length row = 12%nat) then None
      else Some (fieldsError (length row))
  end.

(** Two rows a second apart, and a row three seconds after the first. *)
Definition timedRow (session : string) (at_ : string) : list string :=
  ["/"; ""; "0"; "0"; session; "1"; ""; ""; "Mozilla/5.0"; ""; ""; at_]%string.
Definition secondsParse (s : string) : option Z :=
  if bool_decide (s = "t0"%string) then Some (1592491320 * second)
  else if bool_decide (s = "t1"%string) then Some (1592491321 * second)
  else if bool_decide (s = "t3"%string) then Some (1592491323 * second)
  else None.
Definition timedRows : list (list string) :=
  [timedRow "a" "t0"; timedRow "b" "t1"; timedRow "a" "t1";
   timedRow "c" "t3"].

(** The run over these rows, with the clock of the examples. *)
Definition timedRun : run :=
  importReplay demoVersion demoURL secondsParse demoEncode 5 None
    (inr demoHeader :: (inr <$> timedRows)) 1%float zeroTime lateClock.

(** The requests of [threeRows]. *)
Definition threeRequests : list Request :=
  [demoRequest "0.0.0.0"; demoRequest "0.0.0.1"; demoRequest "0.0.0.0"].

(** The address is a dotted quad of numbers from 0 to 255. *)
Definition validIPv4 (ip : string) : Prop :=
  ∃ a b c d, ip = dotted a b c d ∧
    0 ≤ a ≤ 255 ∧ 0 ≤ b ≤ 255 ∧ 0 ≤ c ≤ 255 ∧ 0 ≤ d ≤ 255.

(** The values of an [int32]. *)
Definition int32 (n : Z) : Prop := - 2 ^ 31 ≤ n < 2 ^ 31.

End ReplayView.

(** ** The import command ([cImport]) *)

Module Cli.
Import Http.

(** The flags of the command, with the database flag of [flagDB]. *)
Record flags := {
  fDB : string;
  fSite : Z;
  fClear : bool;
  fCreatedb : bool;
  fFormat : string;
  fReplay : bool;
  fSpeed : float;
  fStart : string;
}.

(** What one call of the callback [cb] meets: the result of
    [Memstore.Persist] and, when it gave hits, of [cron.UpdateStats]. *)
Record flush := {
  persisted : error + list Count.Hit;
  updated : option error;
}.

(** A line of the log: [zlog.Error(err)] or ["persisted %d hits"]. *)
Inductive logLine :=
  | LogError (e : error)
  | LogPersisted (n : Z).

(** How the command ends: it returns a code and an error, leaves through
    [os.Exit], panics, or does not return. *)
Inductive finish :=
  | Returns (code : Z) (err : option error)
  | Exits (code : Z)
  | Panics (p : Replay.panic)
  | Runs.

Definition needFileError : error := Plain "need a filename".
Definition oneFileError : error := Plain "can only specify one filename".
Definition noSitesError : error := Plain "there are no sites in the database".
Definition manySitesError : error :=
  Plain "more than one site: use -site to specify which site to import".
Definition replayFormatError : error :=
  Plain "-replay can only be done with -format csv".

(** The size of Go's [int] on the platform the command is built for. *)
Inductive intSize := Bits32 | Bits64.

(** The values of an [int] are those from [- intRange] up to, not
    including, [intRange]. *)
Definition intRange (size : intSize) : Z :=
  match size with Bits32 => 2 ^ 31 | Bits64 => 2 ^ 63 end.

(** The value an [int] holds after an operation whose exact result is
    [z]. *)
Definition wrapInt (size : intSize) (z : Z) : Z :=
  (z + intRange size) `mod` (2 * intRange size) - intRange size.

(** [strings.HasSuffix]. *)
Definition HasSuffix (s suffix : string) : bool :=
  String.prefix (String.rev suffix) (String.rev s).

(** Lines 575-589: the callback, called once for each flush, with the count
    [n] it keeps, an [int]: [n += len(hits)] wraps around. [os.Exit(1)] ends
    it all. *)
Fixpoint callbacks (size : intSize) (n : Z) (fs : list flush)
    : option Z * list logLine :=
  match fs with
  | [] => (None, [])
  | f :: rest =>
      match persisted f with
      | inl e => (Some 1, [LogError e])
      | inr hits =>
          match updated f with
          | Some e => (Some 1, [LogError e])
          | None =>
              let n := wrapInt size (n + Z.of_nat (length hits)) in
              let r := callbacks size n rest in
              (r.1, LogPersisted n :: r.2)
          end
      end
  end.

(** What became of [importReplay], as the command sees it. *)
Definition ofReplay (r : option Replay.ending) : finish :=
  match r with
  | Some (Replay.Exit code err) => Returns code err
  | Some (Replay.Panicked p) => Panics p
  | None => Runs
  end.

Section Command.
(** An open file, a database handle, a site. *)
Variable File : Type.
Variable DB : Type.
Variable Site : Type.
(** [os.Stdin] and [os.Open]. *)
Variable stdin : File.
Variable openFile : string → error + File.
(** [gzip.NewReader]. *)
Variable gzipReader : File → error + File.
(** [connectDB] with the database flag and [-createdb]. *)
Variable connectDB : string → bool → error + DB.
(** [site.ByID] and [sites.List]. *)
Variable siteByID : DB → Z → error + Site.
Variable listSites : DB → error + list Site.
(** [time.Parse("2006-01-02 15:04:05", s)]: the time, or the text of the
    error. *)
Variable parseStart : string → string + Z.
(** [%q] of a string. *)
Variable quoted : string → string.
(** What [csv.NewReader(fp)] reads from a file. *)
Variable csvOf : File → list (error + list string).
(** [site.URL()] and [site.DeleteAll(ctx)]. *)
Variable siteURL : Site → string.
Variable deleteAll : DB → Site → option error.
(** The flushes [goatcounter.Import] makes through the callback. *)
Variable Import : DB → Site → File → bool → list flush.
(** The size of [int]. *)
Variable size : intSize.
(** The parameters of [importReplay]. *)
Variable ExportVersion : string.
Variable parseRFC3339 : string → option Z.
Variable encodeQuery : list (string * string) → string.
Variable fuel : nat.
Variable wall : nat → Z.

(** Lines 493-514: the file to read, by the one name given. *)
Definition openInput (name : string) : error + File :=
  if bool_decide (name = "-"%string) then inr stdin
  else
    match openFile name with
    | inl e => inl e
    | inr file => if HasSuffix name ".gz" then gzipReader file else inr file
    end.

(** Lines 526-547: the site to import to. *)
Definition chooseSite (db : DB) (siteID : Z) : error + Site :=
  if bool_decide (0 < siteID) then siteByID db siteID
  else
    match listSites db with
    | inl e => inl e
    | inr [] => inl noSitesError
    | inr [s] => inr s
    | inr _ => inl manySitesError
    end.

(** Line 562: [importReplay(ctx, fp, speed, s)]. *)
Definition replay (db : DB) (site : Site) (fp : File) (speed : float)
    (s : Z) : finish :=
  ofReplay (Replay.result
    (Replay.importReplay ExportVersion (siteURL site) parseRFC3339 encodeQuery
       fuel (deleteAll db site) (csvOf fp) speed s wall)).

(** Lines 550-594: what is done with the file once the site is known. *)
Definition importTo (fl : flags) (db : DB) (site : Site) (fp : File)
    : finish * list logLine :=
  if fReplay fl then
    if bool_decide (fFormat fl ≠ "csv"%string)
    then (Returns 1 (Some replayFormatError), [])
    else if bool_decide (fStart fl ≠ ""%string) then
      match parseStart (fStart fl) with
      | inl msg => (Returns 1 (Some (Plain ("-start: " +:+ msg))), [])
      | inr s => (replay db site fp (fSpeed fl) s, [])
      end
    else (replay db site fp (fSpeed fl) Replay.zeroTime, [])
  else if bool_decide (fFormat fl = "csv"%string) then
    let r := callbacks size 0 (Import db site fp (fClear fl)) in
    (match r.1 with Some code => Exits code | None => Returns 0 None end, r.2)
  else
    (Returns 1 (Some (Plain ("unknown -format value: " +:+ quoted (fFormat fl)))),
     []).

(** Lines 463-595. [parsed] is what [CommandLine.Parse] made of the
    arguments: an error, or the flags and the other arguments. *)
Definition cImport (parsed : error + flags * list string)
    : finish * list logLine :=
  match parsed with
  | inl e => (Returns 1 (Some e), [])
  | inr (fl, files) =>
    match files with
    | [] => (Returns 1 (Some needFileError), [])
    | _ :: _ :: _ => (Returns 1 (Some oneFileError), [])
    | [name] =>
      match openInput name with
      | inl e => (Returns 1 (Some e), [])
      | inr fp =>
        match connectDB (fDB fl) (fCreatedb fl) with
        | inl e => (Returns 2 (Some e), [])
        | inr db =>
          match chooseSite db (fSite fl) with
          | inl e => (Returns 1 (Some e), [])
          | inr site => importTo fl db site fp
          end
        end
      end
    end
  end.

End Command.

(** The sum of the sizes of the batches of hits. *)
Definition totalHits (batches : list (list Count.Hit)) : Z :=
  foldr (λ b n, Z.of_nat (length b) + n) 0 batches.

(** A flush that went through: [Persist] gave hits and [UpdateStats] no
    error. *)
Definition flushed (f : flush) : Prop :=
  (∃ hits, persisted f = inr hits) ∧ updated f = None.

(** *** A concrete instance, for the examples *)

(** Files are known by their name; one database, with the site 1. *)
Definition demoDB : string := "sqlite://db/goatcounter.sqlite3".
Definition demoOpen (name : string) : error + string :=
  if bool_decide (name = "missing.csv"%string)
  then inl (Plain "open missing.csv: no such file or directory")
  else inr name.
Definition demoGzip (file : string) : error + string := inr file.
Definition demoConnect (db : string) (_ : bool) : error + unit :=
  if bool_decide (db = demoDB) then inr tt
  else inl (Plain "unable to open database file").
Definition demoSiteByID (_ : unit) (id : Z) : error + Z := inr id.
Definition demoListSites (_ : unit) : error + list Z := inr [1].
Definition demoParseStart (s : string) : string + Z :=
  inl ("parsing time " +:+ s)%string.
Definition demoQuoted (s : string) : string :=
  String (ascii_of_nat 34) s +:+ String (ascii_of_nat 34) "".
Definition demoCsvOf (_ : string) : list (error + list string) := Replay.oneRow.
Definition demoSiteURL (_ : Z) : string := Replay.demoURL.
Definition demoDeleteAll (_ : unit) (_ : Z) : option error := None.
(** An import that flushes twice: two hits, then one. *)
Definition demoImport (_ : unit) (_ : Z) (_ : string) (_ : bool) : list flush :=
  [{| persisted := inr [Count.bareHit "/a"; Count.bareHit "/b"];
      updated := None |};
   {| persisted := inr [Count.bareHit "/c"]; updated := None |}].
(** A database whose [DeleteAll] fails. *)
Definition lockedError : error := Plain "database is locked".
Definition demoDeleteFails (_ : unit) (_ : Z) : option error := Some lockedError.

(** The flags as they are when none is given, and with [-replay]. *)
Definition defaultFlags : flags :=
  {| fDB := demoDB; fSite := 0; fClear := false; fCreatedb := false;
     fFormat := "csv"; fReplay := false; fSpeed := 1%float; fStart := "" |}.
Definition replayFlags : flags :=
  {| fDB := demoDB; fSite := 0; fClear := false; fCreatedb := false;
     fFormat := "csv"; fReplay := true; fSpeed := 1%float; fStart := "" |}.

(** The flags with a database that is not there. *)
Definition noDBFlags : flags :=
  {| fDB := "sqlite://nowhere"; fSite := 0; fClear := false;
     fCreatedb := false; fFormat := "csv"; fReplay := false;
     fSpeed := 1%float; fStart := "" |}.

(** The command over the instance, with the [deleteAll] given. *)
Definition demoCommand (deleteAll : unit → Z → option error)
    (parsed : error + flags * list string) : finish * list logLine :=
  cImport string unit Z "-" demoOpen demoGzip demoConnect demoSiteByID
    demoListSites demoParseStart demoQuoted demoCsvOf demoSiteURL deleteAll
    demoImport Bits64 Replay.demoVersion Replay.demoParse Replay.demoEncode 5
    Replay.lateClock parsed.

End Cli.

(** * Part II: the properties *)

(** ** POST /api/v0/count *)

Module CountProps.
Import Http Count.

Section Props.
Variable Ctx : Type.
Variable geo : string → string.
Variable Defaults : Ctx → Hit → Hit.
Variable Validate : Ctx → Hit → option string.

Abbreviation prepared := (Count.prepared Ctx geo Defaults).
Abbreviation valid := (Count.valid Ctx geo Defaults Validate).
Abbreviation hitError := (Count.hitError Ctx geo Defaults Validate).
Abbreviation failsValidation := (Count.failsValidation Ctx geo Defaults Validate).
Abbreviation countHit := (Count.countHit Ctx geo Defaults Validate).
Abbreviation countLoop := (Count.countLoop Ctx geo Defaults Validate).
Abbreviation count := (Count.count Ctx geo Defaults Validate).

(** The switch sets the session id in its first case and files an error in
    its third; it does nothing else. *)
Lemma sessionSwitch_newHit noSessions i a errs :
  sessionSwitch noSessions i a (newHit geo a) errs =
  (if bool_decide (Session a ≠ ""%string)
   then setUserSessionID (newHit geo a) (Session a) else newHit geo a,
   if noSession noSessions a then <[i := noSessionMsg]> errs else errs).
Proof.
  unfold sessionSwitch, noSession. simpl.
  destruct (decide (Session a = ""%string)) as [Hs|Hs].
  - rewrite (bool_decide_eq_false_2 (Session a ≠ ""%string)) by tauto.
    rewrite (bool_decide_eq_true_2 _ Hs). simpl.
    destruct (bool_decide (Browser a ≠ ""%string ∧ IP a ≠ ""%string)); simpl;
      [done|]. by destruct noSessions.
  - rewrite (bool_decide_eq_true_2 (Session a ≠ ""%string)) by done.
    by rewrite (bool_decide_eq_false_2 _ Hs).
Qed.

(** One iteration: the entry it leaves in the error map and the hit it
    appends. *)
Lemma countHit_spec ctx noSessions i a errs mem :
  countHit ctx noSessions i a (errs, mem) =
  (match hitError ctx noSessions a with
   | Some msg => <[i := msg]> errs
   | None => errs
   end,
   if valid ctx a then mem ++ [prepared ctx a] else mem).
Proof.
  unfold Count.countHit, Count.hitError, Count.valid. simpl.
  rewrite sessionSwitch_newHit. fold (prepared ctx a).
  destruct (Validate ctx (prepared ctx a)) as [msg|] eqn:Hv.
  - rewrite bool_decide_eq_false_2 by done.
    destruct (noSession noSessions a); [|done].
    by rewrite insert_insert_eq.
  - rewrite bool_decide_eq_true_2 by done.
    by destruct (noSession noSessions a).
Qed.

(** The buffer after the loop: the hits [Validate] accepts are appended, in
    the order of the request. *)
Lemma countLoop_mem ctx noSessions hits : ∀ i st,
  (countLoop ctx noSessions i hits st).2 =
  st.2 ++ (prepared ctx <$> filter (λ a, valid ctx a) hits).
Proof.
  induction hits as [|a hits IH]; intros i [errs mem]; simpl.
  - by rewrite app_nil_r.
  - rewrite IH, countHit_spec. simpl. rewrite filter_cons.
    destruct (valid ctx a) eqn:Hv; simpl.
    + by rewrite <- app_assoc.
    + done.
Qed.

(** The error map after the loop: the entry of index [j] is the one hit
    [j - i] left, or the one that was there. *)
Lemma countLoop_errs ctx noSessions hits : ∀ i st j,
  (countLoop ctx noSessions i hits st).1 !! j =
  match (if decide (i ≤ j)%nat then hits !! (j - i)%nat else None)
        ≫= hitError ctx noSessions with
  | Some msg => Some msg
  | None => st.1 !! j
  end.
Proof.
  induction hits as [|a hits IH]; intros i [errs mem] j; simpl.
  - by destruct (decide (i ≤ j)%nat).
  - rewrite IH, countHit_spec. simpl.
    destruct (decide (S i ≤ j)%nat) as [Hle|Hle].
    + rewrite decide_True by lia.
      replace (j - i)%nat with (S (j - S i)) by lia. simpl.
      destruct (hits !! (j - S i)%nat ≫= hitError ctx noSessions); [done|].
      destruct (hitError ctx noSessions a); [|done].
      rewrite lookup_insert_ne by lia. done.
    + simpl. destruct (decide (i ≤ j)%nat) as [Hij|Hij].
      * assert (j = i) as -> by lia. rewrite Nat.sub_diag. simpl.
        destruct (hitError ctx noSessions a); [|done].
        by rewrite lookup_insert_eq.
      * simpl. destruct (hitError ctx noSessions a); [|done].
        rewrite lookup_insert_ne by lia. done.
Qed.

Lemma countLoop_errs_0 ctx noSessions hits mem j :
  (countLoop ctx noSessions 0 hits (∅, mem)).1 !! j =
  hits !! j ≫= hitError ctx noSessions.
Proof.
  rewrite countLoop_errs. simpl. rewrite Nat.sub_0_r.
  destruct (hits !! j ≫= hitError ctx noSessions); [done|].
  apply lookup_empty.
Qed.

Lemma hitError_Some ctx noSessions a :
  is_Some (hitError ctx noSessions a) ↔ failsValidation ctx noSessions a.
Proof.
  unfold Count.hitError, Count.failsValidation.
  destruct (Validate ctx (prepared ctx a)) as [msg|].
  - split; [intros _; right; eauto | eauto].
  - destruct (noSession noSessions a).
    + split; [by left | eauto].
    + split; [by intros [? [=]] | intros [[=]|[? [=]]]].
Qed.

Lemma hitError_None ctx noSessions a :
  hitError ctx noSessions a = None → valid ctx a = true.
Proof.
  unfold Count.hitError, Count.valid.
  destruct (Validate ctx (prepared ctx a)); [done|].
  intros _. by apply bool_decide_eq_true_2.
Qed.

(** The handler on a request that passed [auth] and [Decode] and has
    between 1 and 100 hits. *)
Lemma count_in_range ctx args mem :
  (1 ≤ length (Hits args) ≤ 100)%nat →
  count ctx None (inr args) mem =
  (countResponse (countLoop ctx (NoSessions args) 0 (Hits args) (∅, mem)).1,
   mem ++ (prepared ctx <$> filter (λ a, valid ctx a) (Hits args))).
Proof.
  intros Hlen. unfold Count.count.
  rewrite bool_decide_eq_false_2 by lia.
  rewrite bool_decide_eq_false_2 by lia.
  by rewrite countLoop_mem.
Qed.

Lemma countResponse_cases errs :
  countResponse errs =
  if decide (errs = ∅)
  then Wrote 202 (JObject {[ "status"%string := JString "ok" ]})
  else Wrote 400 (JObject {[ "errors"%string := intMapJSON errs ]}).
Proof.
  unfold countResponse. destruct (decide (errs = ∅)) as [->|Hne].
  - by rewrite map_size_empty.
  - rewrite bool_decide_eq_true_2; [done|].
    apply map_size_non_empty_iff in Hne. lia.
Qed.

(** The keys of the JSON object made of an error map are the decimal
    strings of its indices. *)
Lemma intMapJSON_keys (errs : gmap nat string) :
  ∃ fields, intMapJSON errs = JObject fields ∧
    (∀ i, fields !! pretty i = JString <$> errs !! i) ∧
    (∀ key, is_Some (fields !! key) →
            ∃ i, key = pretty i ∧ is_Some (errs !! i)).
Proof.
  eexists. split; [done|]. split.
  - intros i. by rewrite (lookup_kmap _), lookup_fmap.
  - intros key [v Hv]. apply (lookup_kmap_Some _) in Hv as (i & -> & Hi).
    exists i. split; [done|]. rewrite lookup_fmap in Hi.
    destruct (errs !! i); [by eauto|done].
Qed.

(** C1, as amended: with [no_sessions] false, a hit whose session token is
    empty and whose browser or IP is blank gets an entry in the error map at
    its index, so the response is a 400 that lists it; the buffer receives
    exactly the hits [Validate] accepts all the same, this one among them
    when [Validate] accepts it. *)
Theorem count_no_session_error_recorded ctx args mem i a :
  (1 ≤ length (Hits args) ≤ 100)%nat →
  NoSessions args = false →
  Hits args !! i = Some a →
  Session a = ""%string →
  Browser a = ""%string ∨ IP a = ""%string →
  ∃ errs msg,
    (count ctx None (inr args) mem).1
      = Wrote 400 (JObject {[ "errors"%string := intMapJSON errs ]}) ∧
    errs !! i = Some msg ∧
    (valid ctx a = true → msg = noSessionMsg) ∧
    (count ctx None (inr args) mem).2
      = mem ++ (prepared ctx <$> filter (λ a, valid ctx a) (Hits args)).
Proof.
  intros Hlen Hns Hi Hs Hblank.
  rewrite count_in_range by done. simpl.
  set (errs := (countLoop ctx (NoSessions args) 0 (Hits args) (∅, mem)).1).
  assert (noSession (NoSessions args) a = true) as Hno.
  { unfold noSession. rewrite Hns, (bool_decide_eq_true_2 _ Hs).
    rewrite bool_decide_eq_false_2; [done|]. intros [??]. tauto. }
  assert (errs !! i = hitError ctx (NoSessions args) a) as Herr.
  { unfold errs. rewrite countLoop_errs_0, Hi. done. }
  assert (is_Some (errs !! i)) as [msg Hmsg].
  { rewrite Herr. apply hitError_Some. by left. }
  exists errs, msg. split_and!; [|done| |done].
  - rewrite countResponse_cases, decide_False; [done|].
    intros Hempty. by rewrite Hempty, lookup_empty in Hmsg.
  - intros Hv. rewrite Herr in Hmsg. unfold Count.hitError in Hmsg.
    unfold Count.valid in Hv. apply bool_decide_eq_true_1 in Hv.
    rewrite Hv, Hno in Hmsg. congruence.
Qed.


(** C3: a request of more than 100 hits gets a 400 with the batch-size
    error, and the buffer is left as it was. *)
Theorem count_rejects_large_batch ctx args mem :
  (100 < length (Hits args))%nat →
  count ctx None (inr args) mem = (Wrote 400 (apiError maxHitsMsg), mem).
Proof.
  intros Hlen. unfold Count.count.
  rewrite bool_decide_eq_false_2 by lia.
  by rewrite bool_decide_eq_true_2 by lia.
Qed.

End Props.

(** C1, as stated, fails: the hit has no session token, no browser and no
    address, sessions are on, the error is filed under index 0 and the
    response is a 400, and yet the hit is in the buffer afterwards. *)
Lemma count_no_session_hit_is_buffered :
  Count.count unit noGeo noDefaults pathRequired tt None
    (inr {| NoSessions := false; Hits := [pageview "/a" "" "" ""] |}) []
  = (Wrote 400
       (JObject {[ "errors"%string := intMapJSON {[ 0%nat := noSessionMsg ]} ]}),
     [bareHit "/a"]).
Proof. vm_compute. reflexivity. Qed.

(** The scenarios of the disabled API test: no hits at all, and two hits
    with sessions switched off. *)
Example count_no_hits :
  Count.count unit noGeo noDefaults pathRequired tt None
    (inr {| NoSessions := false; Hits := [] |}) []
  = (Wrote 400 (apiError "no hits"), []).
Proof. reflexivity. Qed.

Example count_two_hits_without_sessions :
  Count.count unit noGeo noDefaults pathRequired tt None
    (inr {| NoSessions := true;
            Hits := [pageview "/foo" "" "" ""; pageview "/bar" "" "" ""] |}) []
  = (Wrote 202 (JObject {[ "status"%string := JString "ok" ]}),
     [bareHit "/foo"; bareHit "/bar"]).
Proof. vm_compute. reflexivity. Qed.

(** An instance: two hits with sessions on, the first with a browser but no
    address, the second with nothing at all. *)
Lemma count_no_session_error_recorded_witness :
  ∃ errs msg,
    (Count.count unit noGeo noDefaults pathRequired tt None
       (inr {| NoSessions := false;
               Hits := [pageview "/a" "Mozilla/5.0" "" ""; pageview "" "" "" ""] |})
       []).1
      = Wrote 400 (JObject {[ "errors"%string := intMapJSON errs ]}) ∧
    errs !! 0%nat = Some msg ∧
    (Count.valid unit noGeo noDefaults pathRequired tt
       (pageview "/a" "Mozilla/5.0" "" "") = true → msg = noSessionMsg) ∧
    (Count.count unit noGeo noDefaults pathRequired tt None
       (inr {| NoSessions := false;
               Hits := [pageview "/a" "Mozilla/5.0" "" ""; pageview "" "" "" ""] |})
       []).2
      = [] ++ (Count.prepared unit noGeo noDefaults tt <$>
               filter (λ a, Count.valid unit noGeo noDefaults pathRequired tt a)
                 [pageview "/a" "Mozilla/5.0" "" ""; pageview "" "" "" ""]).
Proof.
  apply (count_no_session_error_recorded unit noGeo noDefaults pathRequired tt
           {| NoSessions := false;
              Hits := [pageview "/a" "Mozilla/5.0" "" ""; pageview "" "" "" ""] |}
           [] 0%nat (pageview "/a" "Mozilla/5.0" "" "")).
  - simpl. lia.
  - reflexivity.
  - reflexivity.
  - reflexivity.
  - right. reflexivity.
Defined.


(** An instance: 101 hits, and a buffer that holds one hit already. *)
Lemma count_rejects_large_batch_witness :
  Count.count unit noGeo noDefaults pathRequired tt None
    (inr {| NoSessions := true; Hits := replicate 101 (pageview "/a" "" "" "") |})
    [bareHit "/old"]
  = (Wrote 400 (apiError maxHitsMsg), [bareHit "/old"]).
Proof.
  apply (count_rejects_large_batch unit noGeo noDefaults pathRequired tt
           {| NoSessions := true;
              Hits := replicate 101 (pageview "/a" "" "" "") |}
           [bareHit "/old"]).
  cbn [Hits]. rewrite length_replicate. lia.
Defined.

End CountProps.

(** ** POST /api/v0/export and GET /api/v0/export/{id}/download *)

Module ExportsProps.
Import Http Exports.



Section Props.
Variable exportPath : Z → Z → string.
Variable now : Z.

Abbreviation Create := (Exports.Create exportPath now).
Abbreviation exportHandler := (Exports.exportHandler exportPath now).
Abbreviation step := (Exports.step exportPath now).
Abbreviation reachable := (Exports.reachable exportPath now).
Abbreviation newExport := (Exports.newExport exportPath now).

(** What a request does to the server: nothing; or a new pending export
    with a task for it, when the site has no active one; or, when [Create]
    joins, one more task for the active export of the site. *)
Lemma exportHandler_cases policy auth decoded site w :
  (exportHandler policy auth decoded site w).2 = w ∨
  (∃ startFrom,
     activeFor site (jobs w) = None ∧
     (exportHandler policy auth decoded site w).2 =
       {| jobs := <[nextID w := {| export := newExport site (nextID w) startFrom;
                                   state := Pending |}]> (jobs w);
          nextID := nextID w + 1;
          writers := writers w ++
            [{| wExport := nextID w; wSite := site;
                wPath := exportPath site (nextID w); wBegun := false |}] |}) ∨
  (∃ j,
     policy = Join ∧ activeFor site (jobs w) = Some j ∧
     (exportHandler policy auth decoded site w).2 =
       {| jobs := jobs w; nextID := nextID w;
          writers := writers w ++
            [{| wExport := ID (export j); wSite := SiteID (export j);
                wPath := Path (export j); wBegun := false |}] |}).
Proof.
  unfold Exports.exportHandler, Exports.Create.
  destruct auth; [by left|]. destruct decoded as [e|req]; [by left|].
  case_bool_decide; [by left|].
  destruct (activeFor site (jobs w)) as [j|] eqn:Hact.
  - destruct policy; [|by left]. right. right. by exists j.
  - right. left. by exists (StartFromHitID' req).
Qed.













End Props.

(** When [Create] joins, the handler starts a background task for the
    second request too (it does so after every [Create] that returns no
    error), on the export of the first; once the run of one of the two has
    begun, the export is running and the run of the other cannot begin. *)
Example join_second_task_never_writes :
  Exports.reachable demoPath 0 Join (afterBegin Join) ∧
  writers (afterBegin Join) =
    [begun firstTask; firstTask] ∧
  (jobs (afterBegin Join) !! wExport firstTask
     = Some {| export := Exports.newExport demoPath 0 1 1 0;
               state := Running |}) ∧
  ¬ ∃ w', Exports.step demoPath 0 Join (afterBegin Join) w' ∧
          writers w' = [begun firstTask; begun firstTask].
Proof.
  assert (writers (afterTwo Join) = [firstTask; firstTask]) as Htwo
    by (vm_compute; reflexivity).
  assert (jobs (afterBegin Join) !! 1
          = Some {| export := Exports.newExport demoPath 0 1 1 0;
                    state := Running |}) as Hjob
    by (vm_compute; reflexivity).
  assert (writers (afterBegin Join) = [begun firstTask; firstTask]) as Hw
    by (vm_compute; reflexivity).
  split_and!; [|done|done|].
  - unfold afterBegin.
    eapply reach_step;
      [|apply (step_begin demoPath 0 Join (afterTwo Join) 0%nat firstTask
                 {| export := Exports.newExport demoPath 0 1 1 0;
                    state := Pending |});
        vm_compute; reflexivity].
    unfold afterTwo. eapply reach_step; [|apply step_request].
    unfold afterOne. eapply reach_step; [apply reach_init|apply step_request].
  - intros (w' & Hstep & Hw').
    inversion Hstep as [auth decoded site w0 Hw0 Heq
                       |w0 k wr j Hk Hnot Hj Hst Hw0 Heq
                       |w0 k wr j ok Hk Hb Hj Hst Hw0 Heq]; subst w'.
    + destruct (exportHandler_cases demoPath 0 Join auth decoded site
                  (afterBegin Join)) as [Hc|[(sf & _ & Hc)|(j & _ & _ & Hc)]];
        rewrite Hc in Hw'; cbn [writers] in Hw'; rewrite Hw in Hw';
        discriminate Hw'.
    + cbn [writers] in Hw'. rewrite Hw in Hk.
      destruct k as [|[|k]]; simpl in Hk; [| |done].
      * injection Hk as <-. discriminate Hnot.
      * injection Hk as <-. simpl in Hj.
        change (jobs (afterBegin Join) !! 1 = Some j) in Hj.
        rewrite Hjob in Hj. injection Hj as <-. discriminate Hst.
    + cbn [writers] in Hw'. rewrite Hw in Hw'.
      destruct k as [|[|k]]; discriminate Hw'.
Qed.

Section DownloadProps.
Variable parseID : string → option Z.
Variable contentDisposition : string → error + string.

Abbreviation exportDownload := (Exports.exportDownload parseID contentDisposition).

(** [filepath.Base] on the usual cases. *)
Example Base_examples :
  Base "/tmp/exports/site-1.csv.gz" = "site-1.csv.gz"%string ∧
  Base "a/b/" = "b"%string ∧ Base "" = "."%string ∧ Base "///" = "/"%string ∧
  Base "plain" = "plain"%string.
Proof. by vm_compute. Qed.

(** C5, as amended: for a known export id the handler serves the file at
    the stored path whenever it exists, under [Content-Type:
    application/gzip] and a content disposition made from the base name of
    the path; when the file does not exist it sets the flash message and
    redirects, which is not what an unknown id gets; and the state of the
    export has no part in any of this. *)
Theorem exportDownload_known_id idParam id js open j :
  parseID idParam = Some id →
  js !! id = Some j →
  (∀ content v,
     open (Path (export j)) = Opened content →
     contentDisposition (Base (Path (export j))) = inr v →
     exportDownload None idParam js open =
       Streamed (<["Content-Type"%string := "application/gzip"%string]>
                   {[ "Content-Disposition"%string := v ]}) content) ∧
  (open (Path (export j)) = NotExist →
     exportDownload None idParam js open
       = SeeOther flashNoExport settingsExportTab ∧
     ∀ idParam' id', parseID idParam' = Some id' → js !! id' = None →
       exportDownload None idParam' js open = Returned notFoundError ∧
       exportDownload None idParam' js open
         ≠ exportDownload None idParam js open) ∧
  (∀ s, exportDownload None idParam (setState id s js) open
        = exportDownload None idParam js open).
Proof.
  intros Hid Hj. unfold Exports.exportDownload, ByID. rewrite Hid, Hj.
  split_and!.
  - intros content v -> ->. done.
  - intros ->. split; [done|]. intros idParam' id' -> ->. done.
  - intros s. unfold setState. rewrite lookup_alter, decide_True by done.
    rewrite Hj. done.
Qed.

End DownloadProps.

(** C5, as stated, fails: the export is pending (nothing is written yet,
    no hash, no size), its file exists, and the handler serves it. *)
Lemma exportDownload_serves_pending_export :
  pendingStore !! 1 = Some {| export := Exports.newExport demoPath 0 1 1 0;
                              state := Pending |} ∧
  Exports.exportDownload demoParseID demoDisposition None "1" pendingStore
    (emptyFileAt (demoPath 1 1))
  = Streamed
      (<["Content-Type"%string := "application/gzip"%string]>
         {[ "Content-Disposition"%string :=
              "attachment; filename=goatcounter-export-1-1.csv.gz"%string ]})
      [].
Proof. split; vm_compute; reflexivity. Qed.

(** An instance: a finished export whose file exists. *)
Lemma exportDownload_known_id_witness :
  (∀ content v,
     emptyFileAt (demoPath 1 1)
       (Path (export {| export := Exports.newExport demoPath 0 1 1 0;
                        state := Done |})) = Opened content →
     demoDisposition
       (Base (Path (export {| export := Exports.newExport demoPath 0 1 1 0;
                              state := Done |}))) = inr v →
     Exports.exportDownload demoParseID demoDisposition None "1"
       {[ 1 := {| export := Exports.newExport demoPath 0 1 1 0; state := Done |} ]}
       (emptyFileAt (demoPath 1 1)) =
       Streamed (<["Content-Type"%string := "application/gzip"%string]>
                   {[ "Content-Disposition"%string := v ]}) content) ∧
  (emptyFileAt (demoPath 1 1)
     (Path (export {| export := Exports.newExport demoPath 0 1 1 0;
                      state := Done |})) = NotExist →
     Exports.exportDownload demoParseID demoDisposition None "1"
       {[ 1 := {| export := Exports.newExport demoPath 0 1 1 0; state := Done |} ]}
       (emptyFileAt (demoPath 1 1))
       = SeeOther flashNoExport settingsExportTab ∧
     ∀ idParam' id', demoParseID idParam' = Some id' →
       ({[ 1 := {| export := Exports.newExport demoPath 0 1 1 0; state := Done |} ]}
          : gmap Z ExportJob) !! id' = None →
       Exports.exportDownload demoParseID demoDisposition None idParam'
         {[ 1 := {| export := Exports.newExport demoPath 0 1 1 0; state := Done |} ]}
         (emptyFileAt (demoPath 1 1)) = Returned notFoundError ∧
       Exports.exportDownload demoParseID demoDisposition None idParam'
         {[ 1 := {| export := Exports.newExport demoPath 0 1 1 0; state := Done |} ]}
         (emptyFileAt (demoPath 1 1))
         ≠ Exports.exportDownload demoParseID demoDisposition None "1"
             {[ 1 := {| export := Exports.newExport demoPath 0 1 1 0; state := Done |} ]}
             (emptyFileAt (demoPath 1 1))) ∧
  (∀ s, Exports.exportDownload demoParseID demoDisposition None "1"
          (setState 1 s
             {[ 1 := {| export := Exports.newExport demoPath 0 1 1 0; state := Done |} ]})
          (emptyFileAt (demoPath 1 1))
        = Exports.exportDownload demoParseID demoDisposition None "1"
            {[ 1 := {| export := Exports.newExport demoPath 0 1 1 0; state := Done |} ]}
            (emptyFileAt (demoPath 1 1))).
Proof.
  apply (exportDownload_known_id demoParseID demoDisposition "1" 1
           {[ 1 := {| export := Exports.newExport demoPath 0 1 1 0; state := Done |} ]}
           (emptyFileAt (demoPath 1 1))
           {| export := Exports.newExport demoPath 0 1 1 0; state := Done |}).
  - reflexivity.
  - reflexivity.
Defined.


End ExportsProps.

(** ** The replay importer *)

Module ReplayProps.
Import Http Replay.

(** *** The version check *)

Section Version.
Variable ExportVersion : string.
Variable siteURL : string.
Variable parseRFC3339 : string → option Z.
Variable encodeQuery : list (string * string) → string.

Abbreviation wrongVersion := (Replay.wrongVersion ExportVersion).
Abbreviation versionError := (Replay.versionError ExportVersion).
Abbreviation importReplay :=
  (Replay.importReplay ExportVersion siteURL parseRFC3339 encodeQuery).

Lemma prefix_of_empty (s : string) : String.prefix s "" = true → s = ""%string.
Proof. by destruct s. Qed.

(** An empty first field never carries a version token that is not empty. *)
Lemma wrongVersion_empty_field rest :
  ExportVersion ≠ ""%string → wrongVersion (""%string :: rest) = true.
Proof.
  intros Hne. unfold Replay.wrongVersion.
  destruct (String.prefix ExportVersion "") eqn:Hp; [|done].
  by apply prefix_of_empty in Hp.
Qed.

(** A file whose first header field is not empty and does not start with
    the version token is refused with an error, before any row is read. *)
Lemma import_wrong_version_refused fuel c h rest rows speed start0 wall :
  String.prefix ExportVersion (String c h) = false →
  importReplay fuel None (inr (String c h :: rest) :: rows) speed start0 wall
  = stopped
      (Exit 1 (Some (Plain ("wrong version of CSV database: " +:+ String c ""
                            +:+ " (expected: " +:+ ExportVersion +:+ ")")))) [].
Proof.
  intros Hp. unfold Replay.importReplay, Replay.wrongVersion. by rewrite Hp.
Qed.

(** C6 at its failing input: the first header field is empty (a line that
    starts with a comma, say). The importer does not return an error: it
    panics while it builds the message. *)
Theorem import_empty_version_field_panics fuel rest rows speed start0 wall :
  ExportVersion ≠ ""%string →
  result (importReplay fuel None (inr (""%string :: rest) :: rows)
            speed start0 wall)
    = Some (Panicked (SliceBoundsOutOfRange 1 0)) ∧
  ∀ code err,
    result (importReplay fuel None (inr (""%string :: rest) :: rows)
              speed start0 wall) ≠ Some (Exit code err).
Proof.
  intros Hne. unfold Replay.importReplay.
  rewrite wrongVersion_empty_field by done. by split.
Qed.

(** C10: the branch that reports a wrong version does not always return.
    With a header row whose first field is empty, [header[0][:1]] is out of
    range; with a header row of no fields, [header[0]] is. Either way the
    importer panics, and no request was built. *)
Theorem version_error_branch_panics fuel rest rows speed start0 wall :
  ExportVersion ≠ ""%string →
  importReplay fuel None (inr (""%string :: rest) :: rows) speed start0 wall
    = stopped (Panicked (SliceBoundsOutOfRange 1 0)) [] ∧
  importReplay fuel None (inr [] :: rows) speed start0 wall
    = stopped (Panicked (IndexOutOfRange 0 0)) [].
Proof.
  intros Hne. unfold Replay.importReplay.
  by rewrite wrongVersion_empty_field.
Qed.

End Version.

(** An instance: version token 1, a header row that starts with an empty
    field. *)
Lemma import_empty_version_field_panics_witness :
  result (Replay.importReplay demoVersion demoURL demoParse demoEncode 10 None
            [inr [""; "Title"]%string; inr (rowOf 0)] 1%float zeroTime
            (steadyClock 0 second))
    = Some (Panicked (SliceBoundsOutOfRange 1 0)) ∧
  ∀ code err,
    result (Replay.importReplay demoVersion demoURL demoParse demoEncode 10 None
              [inr [""; "Title"]%string; inr (rowOf 0)] 1%float zeroTime
              (steadyClock 0 second)) ≠ Some (Exit code err).
Proof.
  apply (import_empty_version_field_panics demoVersion demoURL demoParse
           demoEncode 10 ["Title"%string] [inr (rowOf 0)] 1%float zeroTime
           (steadyClock 0 second)).
  discriminate.
Defined.

(** An instance: version token 1, a header row of one empty field, and a
    header row of none. *)
Lemma version_error_branch_panics_witness :
  Replay.importReplay demoVersion demoURL demoParse demoEncode 10 None
    [inr [""%string]; inr (rowOf 0)] 2%float zeroTime (steadyClock 0 second)
    = stopped (Panicked (SliceBoundsOutOfRange 1 0)) [] ∧
  Replay.importReplay demoVersion demoURL demoParse demoEncode 10 None
    [inr []; inr (rowOf 0)] 2%float zeroTime (steadyClock 0 second)
    = stopped (Panicked (IndexOutOfRange 0 0)) [].
Proof.
  apply (version_error_branch_panics demoVersion demoURL demoParse demoEncode
           10 [] [inr (rowOf 0)] 2%float zeroTime (steadyClock 0 second)).
  discriminate.
Defined.

(** *** The replay loop *)

Section Loop.
Variable sleep : Z.
Variable wall : nat → Z.

Abbreviation passes := (Replay.passes wall).

(** The iterations the loop makes: the clock starts at [now] and goes up by
    a second each time; every iteration sleeps but the one that breaks. *)
Lemma replayLoop_ticks fuel : ∀ k now reqs j t,
  (replayLoop fuel sleep wall k now reqs).1 !! j = Some t →
  tNow t = now + Z.of_nat j * second ∧
  (tSlept t = Some sleep ∧ ¬ passes k now j ∨
   tSlept t = None ∧ passes k now j ∧
     (replayLoop fuel sleep wall k now reqs).2 = true ∧
     length (replayLoop fuel sleep wall k now reqs).1 = S j).
Proof.
  unfold Replay.passes. induction fuel as [|fuel IH]; intros k now reqs j t; simpl.
  { by rewrite lookup_nil. }
  case_bool_decide as Hpass; simpl.
  - destruct j as [|j]; simpl; [|by rewrite lookup_nil].
    intros [= <-]. simpl. split; [lia|]. right.
    rewrite Nat.add_0_r. split_and!; [done|lia|done|done].
  - destruct j as [|j]; simpl.
    + intros [= <-]. simpl. split; [lia|]. left.
      rewrite Nat.add_0_r. split; [done|lia].
    + intros Ht. apply IH in Ht as [Hnow Hcases].
      split; [lia|].
      replace (k + S j)%nat with (S k + j)%nat by lia.
      replace (now + (Z.of_nat (S j) + 1) * second)
        with (now + 1 * second + (Z.of_nat j + 1) * second) by lia.
      destruct Hcases as [[? ?]|(? & ? & ? & ?)]; [by left|].
      right. split_and!; [done|done|done|]. simpl. by f_equal.
Qed.







End Loop.

(** *** The synthetic addresses *)

Lemma wrap32_small z : - 2 ^ 31 ≤ z < 2 ^ 31 → wrap32 z = z.
Proof. intros. unfold wrap32. rewrite Z.mod_small; lia. Qed.

Lemma wrap32_succ z : wrap32 (wrap32 z + 1) = wrap32 (z + 1).
Proof.
  unfold wrap32.
  replace ((z + 2 ^ 31) `mod` 2 ^ 32 - 2 ^ 31 + 1 + 2 ^ 31)
    with ((z + 2 ^ 31) `mod` 2 ^ 32 + 1) by lia.
  rewrite Z.add_mod_idemp_l by lia. f_equal. f_equal. lia.
Qed.

Lemma append_nil (s : string) : "" +:+ s = s.
Proof. reflexivity. Qed.

Lemma append_cons c (a s : string) : String c a +:+ s = String c (a +:+ s).
Proof. reflexivity. Qed.

Lemma nodot_pretty_N_go x : ∀ s, nodot s → nodot (pretty_N_go x s).
Proof.
  induction (N.lt_wf_0 x) as [x _ IH]; intros s Hs.
  destruct (decide (x = 0)%N) as [->|Hx]; [by rewrite pretty_N_go_0|].
  rewrite pretty_N_go_step by lia. apply IH.
  - apply N.div_lt; lia.
  - simpl. split; [|done]. unfold pretty_N_char. by repeat case_match.
Qed.

Lemma nodot_pretty_N (x : N) : nodot (pretty x).
Proof.
  unfold pretty, pretty_N. case_decide; [by simpl|].
  by apply nodot_pretty_N_go.
Qed.

Lemma nodot_pretty_Z (z : Z) : nodot (pretty z).
Proof.
  destruct z as [|p|p]; unfold pretty, pretty_Z; [by simpl|..].
  - apply (nodot_pretty_N (Npos p)).
  - rewrite append_cons, append_nil. simpl. split; [done|].
    apply (nodot_pretty_N (Npos p)).
Qed.

(** Up to its first dot a string is read in one way only. *)
Lemma dot_split a : ∀ a' r r',
  nodot a → nodot a' →
  a +:+ "." +:+ r = a' +:+ "." +:+ r' → a = a' ∧ r = r'.
Proof.
  induction a as [|c a IH]; intros [|c' a'] r r' Ha Ha';
    repeat (rewrite append_nil || rewrite append_cons); simpl in *.
  - by intros [= ->].
  - intros [= <- _]. by destruct Ha'.
  - intros [= -> _]. by destruct Ha.
  - intros [= -> Heq]. destruct Ha, Ha'.
    destruct (IH a' r r') as [-> ->]; done.
Qed.

Lemma dotted_inj a b c d a' b' c' d' :
  dotted a b c d = dotted a' b' c' d' → a = a' ∧ b = b' ∧ c = c' ∧ d = d'.
Proof.
  unfold dotted. intros H.
  apply dot_split in H as [Ha H]; [|apply nodot_pretty_Z..].
  apply dot_split in H as [Hb H]; [|apply nodot_pretty_Z..].
  apply dot_split in H as [Hc Hd]; [|apply nodot_pretty_Z..].
  split_and!; by apply (inj pretty).
Qed.

(** While the counter has not wrapped, the address is the counter written
    as a dotted quad, most significant byte first. *)
Lemma synthIP_dotted n :
  0 ≤ n < 2 ^ 31 →
  synthIP n = dotted (n `div` 2 ^ 24) ((n `div` 2 ^ 16) `mod` 256)
                     ((n `div` 2 ^ 8) `mod` 256) (n `mod` 256) ∧
  n = (n `div` 2 ^ 24) * 2 ^ 24 + ((n `div` 2 ^ 16) `mod` 256) * 2 ^ 16 +
      ((n `div` 2 ^ 8) `mod` 256) * 2 ^ 8 + n `mod` 256 ∧
  0 ≤ n `div` 2 ^ 24 < 128.
Proof.
  intros Hn. unfold synthIP, dotted.
  rewrite !Z.shiftr_div_pow2 by lia.
  rewrite !Z.rem_mod_nonneg by (try apply Z.div_pos; lia).
  split; [done|].
  change (2 ^ 31) with 2147483648 in *. change (2 ^ 24) with 16777216.
  change (2 ^ 16) with 65536. change (2 ^ 8) with 256.
  Z.to_euclidean_division_equations; lia.
Qed.

Lemma synthIP_inj n m :
  0 ≤ n < 2 ^ 31 → 0 ≤ m < 2 ^ 31 → synthIP n = synthIP m → n = m.
Proof.
  intros Hn Hm Heq.
  destruct (synthIP_dotted n Hn) as (En & Dn & _).
  destruct (synthIP_dotted m Hm) as (Em & Dm & _).
  rewrite En, Em in Heq. apply dotted_inj in Heq as (Ha & Hb & Hc & Hd).
  rewrite Dn, Dm, Ha, Hb, Hc, Hd. done.
Qed.

Lemma synthIP_first : synthIP 0 = "0.0.0.0"%string.
Proof. by vm_compute. Qed.

(** What becomes of the counter past [2^31 - 1] and past [2^32 - 1]. *)
Lemma synthIP_wrapped :
  synthIP (wrap32 2147483648) = "-128.0.0.0"%string ∧
  synthIP (wrap32 4294967296) = "0.0.0.0"%string.
Proof. by vm_compute. Qed.

Lemma seeSession_prefix seen s : seen `prefix_of` seeSession seen s.
Proof.
  unfold seeSession. case_decide; [done|]. by apply prefix_app_r.
Qed.

Lemma foldl_seeSession_prefix ss : ∀ seen,
  seen `prefix_of` foldl seeSession seen ss.
Proof.
  induction ss as [|s ss IH]; intros seen; simpl; [done|].
  etrans; [apply seeSession_prefix|apply IH].
Qed.

Lemma foldl_seeSession_NoDup ss : ∀ seen,
  NoDup (seen ++ ss) → foldl seeSession seen ss = seen ++ ss.
Proof.
  induction ss as [|s ss IH]; intros seen Hnd; simpl; [by rewrite app_nil_r|].
  unfold seeSession at 2. rewrite decide_False.
  - rewrite IH; rewrite <- app_assoc; done.
  - apply NoDup_app in Hnd as (_ & Hnot & _). intros Hin.
    apply (Hnot s Hin). by left.
Qed.

Lemma firstSeen_NoDup ss : NoDup ss → firstSeen ss = ss.
Proof. intros. unfold firstSeen. by rewrite foldl_seeSession_NoDup. Qed.

(** Lines 658-663 keep the address map in step with the sessions seen. *)
Lemma assignIP_addresses seen st s :
  addressesOf seen st →
  addressesOf (seeSession seen s) (assignIP st s).2 ∧
  start (assignIP st s).2 = start st ∧
  requests (assignIP st s).2 = requests st ∧
  ips (assignIP st s).2 !! s = Some (assignIP st s).1 ∧
  ∃ k : nat, seeSession seen s !! k = Some s ∧
             (assignIP st s).1 = synthIP (wrap32 (Z.of_nat k)).
Proof.
  intros (Hnext & Hnd & Hips). unfold assignIP, seeSession.
  destruct (ips st !! s) as [ip|] eqn:Hs; simpl.
  - apply Hips in Hs as Hk. destruct Hk as (k & Hk & ->).
    rewrite decide_True by (by eapply list_elem_of_lookup_2).
    split_and!; [done|done|done|done|by exists k].
  - assert (s ∉ seen) as Hnot.
    { intros Hin. apply list_elem_of_lookup in Hin as [k Hk].
      assert (ips st !! s = Some (synthIP (wrap32 (Z.of_nat k)))) as Hsome
        by (apply Hips; eauto).
      congruence. }
    rewrite decide_False by done.
    split_and!; [|done|done|by rewrite lookup_insert_eq|].
    + split_and!; simpl.
      * rewrite Hnext, wrap32_succ, length_app. simpl. f_equal. lia.
      * apply NoDup_app. split_and!; [done| |apply NoDup_singleton].
        intros x Hx Hx'. apply list_elem_of_singleton in Hx'. by subst.
      * intros s' ip'. destruct (decide (s' = s)) as [->|Hne].
        -- rewrite lookup_insert_eq, Hnext. split.
           ++ intros [= <-]. exists (length seen). split; [|done].
              by rewrite lookup_app_r, Nat.sub_diag by lia.
           ++ intros (k & Hk & ->).
              apply lookup_app_Some in Hk as [Hk|[Hlen Hk]].
              { by apply list_elem_of_lookup_2 in Hk. }
              apply list_lookup_singleton_Some in Hk as [Hk _].
              do 3 f_equal. lia.
        -- rewrite lookup_insert_ne by done. rewrite Hips.
           split; intros (k & Hk & ->); exists k; (split; [|done]).
           ++ by apply lookup_app_l_Some.
           ++ apply lookup_app_Some in Hk as [Hk|[_ Hk]]; [done|].
              apply list_lookup_singleton_Some in Hk as [_ ?]. congruence.
    + exists (length seen). rewrite Hnext. split; [|done].
      by rewrite lookup_app_r, Nat.sub_diag by lia.
Qed.

Section Sessions.
Variable siteURL : string.
Variable parseRFC3339 : string → option Z.
Variable encodeQuery : list (string * string) → string.

Abbreviation loadRow := (Replay.loadRow siteURL parseRFC3339 encodeQuery).
Abbreviation loadLoop := (Replay.loadLoop siteURL parseRFC3339 encodeQuery).

(** A row of twelve fields is loaded. *)
Lemma loadRow_twelve st row :
  length row = 12%nat → ∃ r st', loadRow st row = inr (r, st').
Proof.
  intros Hlen. do 12 (destruct row as [|? row]; [done|]).
  destruct row; [|done].
  unfold Replay.loadRow. destruct (assignIP _ _). eauto.
Qed.

Lemma loadRow_length st row x : loadRow st row = inr x → length row = 12%nat.
Proof.
  unfold Replay.loadRow.
  do 12 (destruct row as [|? row]; [by simpl|]). destruct row; by simpl.
Qed.

(** One row: the request gets the address of the row's session. *)
Lemma loadRow_addresses seen st row r st' :
  loadRow st row = inr (r, st') →
  addressesOf seen st →
  length row = 12%nat ∧
  addressesOf (seeSession seen (sessionOf row)) st' ∧
  ips st' !! sessionOf row = Some (RemoteAddr r) ∧
  ∃ k : nat, seeSession seen (sessionOf row) !! k = Some (sessionOf row) ∧
             RemoteAddr r = synthIP (wrap32 (Z.of_nat k)).
Proof.
  intros Hrow Hok. pose proof (loadRow_length _ _ _ Hrow) as Hlen.
  do 12 (destruct row as [|? row]; [done|]). destruct row; [|done].
  unfold Replay.loadRow in Hrow. unfold sessionOf. simpl.
  match type of Hrow with
  | context [assignIP ?st0 ?s] =>
      assert (addressesOf seen st0) as Hok0
        by (by case_bool_decide);
      destruct (assignIP_addresses seen st0 s Hok0)
        as (Hok' & _ & _ & Hip & k & Hk & Haddr);
      destruct (assignIP st0 s) as [ip st1] eqn:Hassign
  end.
  simplify_eq/=. split_and!; [done|done|done|by exists k].
Qed.

(** The loop over the rows: every request built carries the address of its
    row's session, which is made of the rank of the session among the
    sessions in first-seen order. *)
Lemma loadLoop_addresses rows : ∀ st seen res rs,
  loadLoop (inr <$> rows) st = (res, rs) →
  addressesOf seen st →
  (∀ i r, rs !! i = Some r →
     ∃ row (k : nat),
       rows !! i = Some row ∧
       foldl seeSession seen (sessionOf <$> rows) !! k = Some (sessionOf row) ∧
       RemoteAddr r = synthIP (wrap32 (Z.of_nat k))) ∧
  (∀ st', res = inr st' →
     length rs = length rows ∧
     addressesOf (foldl seeSession seen (sessionOf <$> rows)) st' ∧
     ∀ i row r, rows !! i = Some row → rs !! i = Some r →
       ips st' !! sessionOf row = Some (RemoteAddr r)).
Proof.
  induction rows as [|row rows IH]; intros st seen res rs; simpl.
  { intros [= <- <-] Hok. split; [by intros i r; rewrite lookup_nil|].
    intros st' [= <-]. split_and!; [done|done|]. intros i ??. by rewrite lookup_nil. }
  destruct (loadRow st row) as [e|[r st1]] eqn:Hrow.
  { intros [= <- <-] Hok. split; [by intros i r'; rewrite lookup_nil|]. done. }
  destruct (loadLoop _ st1) as [res' rs'] eqn:Hloop.
  intros [= <- <-] Hok.
  destruct (loadRow_addresses _ _ _ _ _ Hrow Hok) as (_ & Hok1 & Hip & k & Hk & Haddr).
  destruct (IH _ _ _ _ Hloop Hok1) as [IH1 IH2].
  split.
  - intros [|i] r'; simpl.
    + intros [= <-]. exists row, k. split_and!; [done| |done].
      eapply prefix_lookup_Some; [done|apply foldl_seeSession_prefix].
    + intros Hr. destruct (IH1 i r' Hr) as (row' & k' & ? & ? & ?). eauto.
  - intros st' ->. destruct (IH2 st' eq_refl) as (Hlen & Hok' & Hips).
    split_and!; [simpl; by f_equal|done|].
    intros [|i] row' r'; simpl.
    + intros [= <-] [= <-].
      destruct Hok' as (_ & _ & Hips').
      destruct Hok1 as (_ & _ & Hips1).
      apply Hips1 in Hip as (k1 & Hk1 & ->).
      apply Hips'. exists k1. split; [|done].
      eapply prefix_lookup_Some; [done|apply foldl_seeSession_prefix].
    + apply Hips.
Qed.

Lemma addressesOf_initial start0 : addressesOf [] (initialLoad start0).
Proof.
  split_and!; [done|constructor|]. intros s ip. simpl. rewrite lookup_empty.
  split; [done|]. intros (k & Hk & _). by rewrite lookup_nil in Hk.
Qed.

(** Rows of twelve fields are all loaded. *)
Lemma loadLoop_total rows : ∀ st,
  Forall (λ row, length row = 12%nat) rows →
  ∃ st' rs, loadLoop (inr <$> rows) st = (inr st', rs).
Proof.
  induction rows as [|row rows IH]; intros st Hall; [by simpl; eauto|].
  apply Forall_cons in Hall as [Hrow Hall].
  rewrite fmap_cons. cbn [Replay.loadLoop].
  destruct (loadRow_twelve st row Hrow) as (r & st1 & ->).
  destruct (IH st1 Hall) as (st' & rs & ->). eauto.
Qed.

(** C7, as amended: in a run that loads its rows, with no more than 2^31
    distinct sessions among them, the address of a request is made of the
    rank of its row's session in first-seen order, counted from 0, so the
    first is 0.0.0.0; two rows get the same address exactly when they have
    the same session; and the address map holds that address for the
    session at the end. No column of a row is an address. *)
Theorem session_addresses_stable_injective rows start0 st rs :
  loadLoop (inr <$> rows) (initialLoad start0) = (inr st, rs) →
  Z.of_nat (length (firstSeen (sessionOf <$> rows))) ≤ 2 ^ 31 →
  length rs = length rows ∧
  (∀ i row r, rows !! i = Some row → rs !! i = Some r →
     ips st !! sessionOf row = Some (RemoteAddr r) ∧
     ∃ k : nat, firstSeen (sessionOf <$> rows) !! k = Some (sessionOf row) ∧
                RemoteAddr r = synthIP (Z.of_nat k)) ∧
  (∀ i j rowi rowj ri rj,
     rows !! i = Some rowi → rows !! j = Some rowj →
     rs !! i = Some ri → rs !! j = Some rj →
     (RemoteAddr ri = RemoteAddr rj ↔ sessionOf rowi = sessionOf rowj)) ∧
  (∀ row r, rows !! 0%nat = Some row → rs !! 0%nat = Some r →
     RemoteAddr r = "0.0.0.0"%string).
Proof.
  intros Hload Hbound.
  destruct (loadLoop_addresses rows _ [] _ _ Hload (addressesOf_initial start0))
    as [Hreq Hfinal].
  destruct (Hfinal st eq_refl) as (Hlen & (_ & Hnd & _) & Hips).
  fold (firstSeen (sessionOf <$> rows)) in *.
  assert (∀ i row r, rows !! i = Some row → rs !! i = Some r →
            ∃ k : nat, firstSeen (sessionOf <$> rows) !! k = Some (sessionOf row) ∧
                       0 ≤ Z.of_nat k < 2 ^ 31 ∧
                       RemoteAddr r = synthIP (Z.of_nat k)) as Hrank.
  { intros i row r Hrow Hr. destruct (Hreq i r Hr) as (row' & k & Hrow' & Hk & ->).
    assert (row' = row) as -> by congruence.
    apply lookup_lt_Some in Hk as Hlt.
    exists k. rewrite wrap32_small by lia. split_and!; [done|lia|lia|done]. }
  split_and!; [done| | |].
  - intros i row r Hrow Hr. split; [by eapply Hips|].
    destruct (Hrank i row r Hrow Hr) as (k & ? & ? & ?). eauto.
  - intros i j rowi rowj ri rj Hi Hj Hri Hrj.
    destruct (Hrank i rowi ri Hi Hri) as (ki & Hki & Hbi & ->).
    destruct (Hrank j rowj rj Hj Hrj) as (kj & Hkj & Hbj & ->).
    split.
    + intros Heq. apply synthIP_inj in Heq; [|lia..].
      assert (ki = kj) as -> by lia. congruence.
    + intros Heq. rewrite Heq in Hki.
      by rewrite (NoDup_lookup _ ki kj _ Hnd Hki Hkj).
  - intros row r Hrow Hr.
    destruct (Hreq 0%nat r Hr) as (row' & k & Hrow' & Hk & ->).
    assert (row' = row) as -> by congruence.
    assert (k = 0%nat) as ->; [|by vm_compute].
    destruct rows as [|row0 rows0]; [done|]. simpl in Hrow. simplify_eq.
    unfold firstSeen in Hnd. simpl in Hk, Hnd.
    eapply (NoDup_lookup _ k 0%nat _ Hnd Hk).
    eapply prefix_lookup_Some; [|apply foldl_seeSession_prefix]. done.
Qed.

(** Rows with the sessions 0, 1, 2, ...: the row of index [i] gets the
    address made of the wrapped counter value [i]. *)
Lemma manySessions_addresses n start0 st rs :
  loadLoop (manySessions n) (initialLoad start0) = (inr st, rs) →
  length rs = Z.to_nat n ∧
  ∀ i r, rs !! i = Some r → RemoteAddr r = synthIP (wrap32 (Z.of_nat i)).
Proof.
  unfold manySessions. intros Hload.
  destruct (loadLoop_addresses _ _ [] _ _ Hload (addressesOf_initial start0))
    as [Hreq Hfinal].
  destruct (Hfinal st eq_refl) as (Hlen & _ & _).
  rewrite length_fmap, length_seqZ in Hlen. split; [done|].
  intros i r Hr. destruct (Hreq i r Hr) as (row & k & Hrow & Hk & ->).
  assert (sessionOf <$> (rowOf <$> seqZ 0 n) = pretty <$> seqZ 0 n) as Hss.
  { rewrite <- list_fmap_compose. by apply list_fmap_ext. }
  assert (NoDup (pretty <$> seqZ 0 n)) as Hnd.
  { apply (NoDup_fmap_2 _), NoDup_seqZ. }
  fold (firstSeen (sessionOf <$> (rowOf <$> seqZ 0 n))) in Hk.
  rewrite Hss, firstSeen_NoDup in Hk by done.
  rewrite list_lookup_fmap in Hrow.
  destruct (seqZ 0 n !! i) as [z|] eqn:Hz; [|done].
  simpl in Hrow. injection Hrow as <-.
  assert ((pretty <$> seqZ 0 n) !! i = Some (pretty z)) as Hi
    by (by rewrite list_lookup_fmap, Hz).
  change (sessionOf (rowOf z)) with (pretty z) in Hk.
  by rewrite (NoDup_lookup _ k i _ Hnd Hk Hi).
Qed.

Lemma manySessions_load n start0 :
  ∃ st rs, loadLoop (manySessions n) (initialLoad start0) = (inr st, rs).
Proof.
  unfold manySessions.
  apply loadLoop_total. apply Forall_fmap, Forall_forall. by intros z _.
Qed.

(** The same, at the row of index [k]. *)
Lemma manySessions_row n k start0 st rs :
  loadLoop (manySessions n) (initialLoad start0) = (inr st, rs) →
  0 ≤ k < n →
  manySessions n !! Z.to_nat k = Some (inr (rowOf k)) ∧
  ∃ r, rs !! Z.to_nat k = Some r ∧ RemoteAddr r = synthIP (wrap32 k).
Proof.
  intros Hload Hk.
  destruct (manySessions_addresses _ _ _ _ Hload) as [Hlen Haddr]. split.
  - unfold manySessions. rewrite !list_lookup_fmap, lookup_seqZ_lt by lia.
    simpl. do 3 f_equal. lia.
  - destruct (lookup_lt_is_Some_2 rs (Z.to_nat k)) as [r Hr]; [lia|].
    exists r. split; [done|]. rewrite (Haddr _ _ Hr). do 2 f_equal. lia.
Qed.

End Sessions.

Lemma wraparound_ranges :
  0 ≤ 0 < 4294967297 ∧ 0 ≤ 2147483648 < 4294967297 ∧
  0 ≤ 4294967296 < 4294967297.
Proof. lia. Qed.

(** C7, as stated, fails once the 32-bit counter wraps. In a file of
    2^32 + 1 rows with the sessions 0, 1, 2, ..., the row of index 2^31 gets
    the address -128.0.0.0, and the row of index 2^32 gets 0.0.0.0, the
    address of the first row, whose session is another. *)
Lemma session_addresses_collide_after_wraparound :
  ∃ st rs ri rj rk,
    Replay.loadLoop demoURL demoParse demoEncode (manySessions 4294967297)
      (initialLoad zeroTime) = (inr st, rs) ∧
    manySessions 4294967297 !! Z.to_nat 0 = Some (inr (rowOf 0)) ∧
    manySessions 4294967297 !! Z.to_nat 4294967296
      = Some (inr (rowOf 4294967296)) ∧
    sessionOf (rowOf 0) ≠ sessionOf (rowOf 4294967296) ∧
    rs !! Z.to_nat 0 = Some ri ∧
    rs !! Z.to_nat 2147483648 = Some rk ∧
    rs !! Z.to_nat 4294967296 = Some rj ∧
    RemoteAddr ri = "0.0.0.0"%string ∧
    RemoteAddr rk = "-128.0.0.0"%string ∧
    RemoteAddr rj = "0.0.0.0"%string.
Proof.
  destruct (manySessions_load demoURL demoParse demoEncode 4294967297 zeroTime)
    as (st & rs & Hload).
  destruct wraparound_ranges as (R0 & R1 & R2).
  destruct (manySessions_row _ _ _ _ _ _ _ _ Hload R0) as (Hrow0 & ri & Hri & Hai).
  destruct (manySessions_row _ _ _ _ _ _ _ _ Hload R1) as (_ & rk & Hrk & Hak).
  destruct (manySessions_row _ _ _ _ _ _ _ _ Hload R2) as (Hrow2 & rj & Hrj & Haj).
  exists st, rs, ri, rj, rk.
  destruct synthIP_wrapped as [Wk Wj].
  split; [exact Hload|]. split; [exact Hrow0|]. split; [exact Hrow2|].
  split.
  { intros Heq. apply (inj pretty 0 4294967296) in Heq. discriminate Heq. }
  split; [exact Hri|]. split; [exact Hrk|]. split; [exact Hrj|].
  split; [exact Hai|]. split.
  - rewrite Hak. exact Wk.
  - rewrite Haj. exact Wj.
Qed.

(** An instance: three rows, the sessions 7, 8 and 7 again. *)
Lemma session_addresses_stable_injective_witness :
  length [demoRequest "0.0.0.0"; demoRequest "0.0.0.1"; demoRequest "0.0.0.0"]
    = length threeRows ∧
  (∀ i row r, threeRows !! i = Some row →
     [demoRequest "0.0.0.0"; demoRequest "0.0.0.1"; demoRequest "0.0.0.0"] !! i
       = Some r →
     ips threeRowsLoaded !! sessionOf row = Some (RemoteAddr r) ∧
     ∃ k : nat, firstSeen (sessionOf <$> threeRows) !! k = Some (sessionOf row) ∧
                RemoteAddr r = synthIP (Z.of_nat k)) ∧
  (∀ i j rowi rowj ri rj,
     threeRows !! i = Some rowi → threeRows !! j = Some rowj →
     [demoRequest "0.0.0.0"; demoRequest "0.0.0.1"; demoRequest "0.0.0.0"] !! i
       = Some ri →
     [demoRequest "0.0.0.0"; demoRequest "0.0.0.1"; demoRequest "0.0.0.0"] !! j
       = Some rj →
     (RemoteAddr ri = RemoteAddr rj ↔ sessionOf rowi = sessionOf rowj)) ∧
  (∀ row r, threeRows !! 0%nat = Some row →
     [demoRequest "0.0.0.0"; demoRequest "0.0.0.1"; demoRequest "0.0.0.0"] !! 0%nat
       = Some r →
     RemoteAddr r = "0.0.0.0"%string).
Proof.
  apply (session_addresses_stable_injective demoURL demoParse demoEncode
           threeRows zeroTime threeRowsLoaded
           [demoRequest "0.0.0.0"; demoRequest "0.0.0.1"; demoRequest "0.0.0.0"]).
  - vm_compute. reflexivity.
  - vm_compute. discriminate.
Defined.

(** *** A whole run *)

Section Run.
Variable ExportVersion : string.
Variable siteURL : string.
Variable parseRFC3339 : string → option Z.
Variable encodeQuery : list (string * string) → string.

Abbreviation importReplay' :=
  (Replay.importReplay ExportVersion siteURL parseRFC3339 encodeQuery).

(** A file that passes the version check and loads gets to the replay
    loop. *)
Lemma importReplay_replays fuel header rows speed start0 wall st rs :
  Replay.wrongVersion ExportVersion header = false →
  Replay.loadLoop siteURL parseRFC3339 encodeQuery rows (initialLoad start0)
    = (inr st, rs) →
  importReplay' fuel None (inr header :: rows) speed start0 wall =
  {| result :=
       if (replayLoop fuel (sleepFor speed) wall 0 (start st) (requests st)).2
       then Some (Exit 0 None) else None;
     built := rs;
     ticks := (replayLoop fuel (sleepFor speed) wall 0 (start st) (requests st)).1 |}.
Proof. intros Hv Hload. unfold Replay.importReplay. by rewrite Hv, Hload. Qed.

(** C9, as amended: every iteration of the replay loop but the one that
    breaks sleeps, and for the same time: one second when the speed is not
    above 1 (whatever the quotient of a second by the speed would be), and
    the [float64] quotient of 10^9 by the speed, cut to whole nanoseconds,
    when it is. *)
Theorem replay_sleeps_between_ticks fuel deleteAll reads speed start0 wall j t :
  ticks (importReplay' fuel deleteAll reads speed start0 wall) !! j = Some t →
  (tSlept t = Some (sleepFor speed) ∨
   tSlept t = None ∧
   length (ticks (importReplay' fuel deleteAll reads speed start0 wall)) = S j ∧
   result (importReplay' fuel deleteAll reads speed start0 wall)
     = Some (Exit 0 None)) ∧
  (PrimFloat.ltb 1%float speed = false → sleepFor speed = 1 * second) ∧
  (PrimFloat.ltb 1%float speed = true →
   sleepFor speed = durationOf (PrimFloat.div 1000000000%float speed)).
Proof.
  intros Ht. split_and!.
  - unfold Replay.importReplay in *.
    destruct deleteAll; [simpl in Ht; by rewrite lookup_nil in Ht|].
    destruct reads as [|[e|header] rows];
      [simpl in Ht; by rewrite lookup_nil in Ht..|].
    destruct (Replay.wrongVersion _ _);
      [simpl in Ht; by rewrite lookup_nil in Ht|].
    destruct (Replay.loadLoop _ _ _ _ _) as [[e|st] rs];
      [simpl in Ht; by rewrite lookup_nil in Ht|].
    simpl in *. apply replayLoop_ticks in Ht as [_ Hcases].
    destruct Hcases as [[? _]|(? & _ & Hfin & Hlen)]; [by left|].
    right. by rewrite Hfin.
  - intros Hs. unfold sleepFor. by rewrite Hs.
  - intros Hs. unfold sleepFor. by rewrite Hs.
Qed.

End Run.


(** The sleep for some speeds. *)
Example sleepFor_examples :
  sleepFor 2%float = 500000000 ∧ sleepFor 3%float = 333333333 ∧
  sleepFor 1000%float = 1000000 ∧ sleepFor 1%float = 1000000000 ∧
  sleepFor 0.25%float = 1000000000 ∧ sleepFor PrimFloat.infinity = 0 ∧
  sleepFor PrimFloat.nan = 1000000000.
Proof. by vm_compute. Qed.


(** C9, as stated, fails below a speed of 1: at half speed the loop sleeps
    one second after each iteration, not two. *)
Lemma replay_half_speed_sleeps_one_second :
  sleepFor 0.5%float = 1 * second ∧
  sleepFor 0.5%float ≠ 2 * second ∧
  tSlept <$> ticks (Replay.importReplay demoVersion demoURL demoParse demoEncode
                      3 None oneRow 0.5%float zeroTime lateClock)
    = [Some 1000000000; Some 1000000000; Some 1000000000].
Proof. split_and!; [by vm_compute|by vm_compute|by vm_compute]. Qed.

(** An instance: speed 2, a wall clock 1.2 seconds ahead of the first row
    that goes on by half a second per iteration; the first iteration sleeps
    half a second. *)
Lemma replay_sleeps_between_ticks_witness :
  (tSlept {| tNow := demoTime; tFired := [demoRequest "0.0.0.0"];
             tSlept := Some 500000000 |} = Some (sleepFor 2%float) ∨
   tSlept {| tNow := demoTime; tFired := [demoRequest "0.0.0.0"];
             tSlept := Some 500000000 |} = None ∧
   length (ticks (Replay.importReplay demoVersion demoURL demoParse demoEncode
                    5 None oneRow 2%float zeroTime
                    (steadyClock (demoTime + 1200000000) 500000000))) = 1%nat ∧
   result (Replay.importReplay demoVersion demoURL demoParse demoEncode
             5 None oneRow 2%float zeroTime
             (steadyClock (demoTime + 1200000000) 500000000))
     = Some (Exit 0 None)) ∧
  (PrimFloat.ltb 1%float 2%float = false → sleepFor 2%float = 1 * second) ∧
  (PrimFloat.ltb 1%float 2%float = true →
   sleepFor 2%float = durationOf (PrimFloat.div 1000000000%float 2%float)).
Proof.
  apply (replay_sleeps_between_ticks demoVersion demoURL demoParse demoEncode
           5 None oneRow 2%float zeroTime
           (steadyClock (demoTime + 1200000000) 500000000) 0%nat
           {| tNow := demoTime; tFired := [demoRequest "0.0.0.0"];
              tSlept := Some 500000000 |}).
  vm_compute. reflexivity.
Defined.

End ReplayProps.

(** * Part III: more properties of the code *)

(** ** POST /api/v0/count, further *)

Module CountMore.
Import Http Count CountProps.

Lemma filter_all {A} (P : A → Prop) `{∀ x, Decision (P x)} (l : list A) :
  Forall P l → filter P l = l.
Proof.
  induction 1 as [|x l Hx _ IH]; [done|].
  rewrite filter_cons, decide_True by done. by rewrite IH.
Qed.

Section Props.
Variable Ctx : Type.
Variable geo : string → string.
Variable Defaults : Ctx → Hit → Hit.
Variable Validate : Ctx → Hit → option string.

Abbreviation prepared := (Count.prepared Ctx geo Defaults).
Abbreviation valid := (Count.valid Ctx geo Defaults Validate).
Abbreviation hitError := (Count.hitError Ctx geo Defaults Validate).
Abbreviation countLoop := (Count.countLoop Ctx geo Defaults Validate).
Abbreviation count := (Count.count Ctx geo Defaults Validate).

(** The error map of the loop is empty exactly when no hit leaves an
    entry. *)
Lemma countLoop_errs_empty ctx noSessions hits mem :
  (countLoop ctx noSessions 0 hits (∅, mem)).1 = ∅ ↔
  Forall (λ a, hitError ctx noSessions a = None) hits.
Proof.
  rewrite Forall_lookup. split.
  - intros Hempty i a Hi.
    pose proof (countLoop_errs_0 Ctx geo Defaults Validate ctx noSessions hits mem i)
      as Hlook.
    rewrite Hempty, lookup_empty, Hi in Hlook. done.
  - intros Hall. apply map_eq. intros i.
    rewrite (countLoop_errs_0 Ctx geo Defaults Validate), lookup_empty.
    destruct (hits !! i) as [a|] eqn:Hi; [|done]. simpl. by eapply Hall.
Qed.

(** On a request of 1 to 100 hits the answer is 202 exactly when no hit
    leaves an entry in the error map. *)
Lemma count_accepted_iff ctx args mem :
  (1 ≤ length (Hits args) ≤ 100)%nat →
  (count ctx None (inr args) mem).1
    = Wrote 202 (JObject {[ "status"%string := JString "ok" ]}) ↔
  Forall (λ a, hitError ctx (NoSessions args) a = None) (Hits args).
Proof.
  intros Hlen. rewrite (count_in_range Ctx geo Defaults Validate) by done.
  simpl. rewrite countResponse_cases, <- countLoop_errs_empty.
  case_decide as He; [by rewrite He|]. split; [done|]. intros Hempty.
  by destruct He.
Qed.

(** The handler only ever adds to the buffer, at its end, and no more hits
    than the request holds; when it returns an error it adds nothing. *)
Theorem count_buffer_only_grows ctx auth decoded mem :
  mem `prefix_of` (count ctx auth decoded mem).2 ∧
  (∀ args, decoded = inr args →
     (length (count ctx auth decoded mem).2
      ≤ length mem + length (Hits args))%nat) ∧
  (∀ e, (count ctx auth decoded mem).1 = Returned e →
     (count ctx auth decoded mem).2 = mem).
Proof.
  unfold Count.count. destruct auth as [e|]; simpl.
  { split_and!; [done|intros; lia|done]. }
  destruct decoded as [e|args]; simpl.
  { split_and!; [done|done|done]. }
  case_bool_decide; simpl.
  { split_and!; [done|intros ? [= <-]; lia|done]. }
  case_bool_decide; simpl.
  { split_and!; [done|intros ? [= <-]; lia|done]. }
  rewrite (countLoop_mem Ctx geo Defaults Validate). simpl. split_and!.
  - by apply prefix_app_r.
  - intros ? [= <-]. rewrite length_app, length_fmap.
    pose proof (length_filter (λ a, valid ctx a) (Hits args)). lia.
  - rewrite countResponse_cases. by case_decide.
Qed.

(** A 202 means every hit of the request went into the buffer, in the
    order of the request. *)
Theorem count_accepted_all_buffered ctx auth decoded mem body :
  (count ctx auth decoded mem).1 = Wrote 202 body →
  ∃ args, auth = None ∧ decoded = inr args ∧
    (1 ≤ length (Hits args) ≤ 100)%nat ∧
    body = JObject {[ "status"%string := JString "ok" ]} ∧
    (count ctx auth decoded mem).2 = mem ++ (prepared ctx <$> Hits args).
Proof.
  unfold Count.count. destruct auth as [e|]; [done|].
  destruct decoded as [e|args]; [done|].
  case_bool_decide as H0; [done|]. case_bool_decide as H100; [done|]. simpl.
  rewrite countResponse_cases, (countLoop_mem Ctx geo Defaults Validate).
  case_decide as Hempty; [|done]. intros [= <-].
  exists args. split_and!; [done|done|lia|lia|done|]. simpl. do 2 f_equal.
  apply filter_all. apply countLoop_errs_empty in Hempty.
  eapply Forall_impl; [done|]. intros a Ha. simpl.
  by apply Is_true_true, (hitError_None Ctx geo Defaults Validate ctx (NoSessions args)).
Qed.

(** One request with the hits of two leaves the buffer as the two requests
    after one another do, and is answered with a 202 exactly when both
    are. *)
Theorem count_batches_compose ctx noSessions hits1 hits2 mem :
  (1 ≤ length hits1)%nat → (1 ≤ length hits2)%nat →
  (length hits1 + length hits2 ≤ 100)%nat →
  (count ctx None (inr {| NoSessions := noSessions; Hits := hits1 ++ hits2 |})
     mem).2
  = (count ctx None (inr {| NoSessions := noSessions; Hits := hits2 |})
       (count ctx None (inr {| NoSessions := noSessions; Hits := hits1 |})
          mem).2).2 ∧
  ((count ctx None (inr {| NoSessions := noSessions; Hits := hits1 ++ hits2 |})
      mem).1 = Wrote 202 (JObject {[ "status"%string := JString "ok" ]}) ↔
   (count ctx None (inr {| NoSessions := noSessions; Hits := hits1 |}) mem).1
     = Wrote 202 (JObject {[ "status"%string := JString "ok" ]}) ∧
   (count ctx None (inr {| NoSessions := noSessions; Hits := hits2 |})
      (count ctx None (inr {| NoSessions := noSessions; Hits := hits1 |})
         mem).2).1
     = Wrote 202 (JObject {[ "status"%string := JString "ok" ]})).
Proof.
  intros H1 H2 H12. split.
  - rewrite !(count_in_range Ctx geo Defaults Validate)
      by (simpl; rewrite ?length_app; lia).
    simpl. by rewrite filter_app, fmap_app, app_assoc.
  - rewrite !count_accepted_iff by (simpl; rewrite ?length_app; lia).
    simpl. apply Forall_app.
Qed.

(** When sessions are switched off, or every hit carries a session token or
    both a browser and an address, only [Validate] can fail a hit: the error
    map holds the messages of [Validate] and nothing else. *)
Theorem count_identified_hits ctx args mem :
  (1 ≤ length (Hits args) ≤ 100)%nat →
  NoSessions args = true ∨
    Forall (λ a, Session a ≠ ""%string ∨
                 (Browser a ≠ ""%string ∧ IP a ≠ ""%string)) (Hits args) →
  ∃ errs : gmap nat string,
    (∀ i, errs !! i = Hits args !! i ≫= λ a, Validate ctx (prepared ctx a)) ∧
    (count ctx None (inr args) mem).1 =
      (if decide (errs = ∅)
       then Wrote 202 (JObject {[ "status"%string := JString "ok" ]})
       else Wrote 400 (JObject {[ "errors"%string := intMapJSON errs ]})).
Proof.
  intros Hlen Hid. rewrite (count_in_range Ctx geo Defaults Validate) by done.
  simpl. eexists. split; [|apply countResponse_cases].
  intros i. rewrite (countLoop_errs_0 Ctx geo Defaults Validate).
  destruct (Hits args !! i) as [a|] eqn:Hi; [|done]. simpl.
  unfold Count.hitError. destruct (Validate ctx (prepared ctx a)); [done|].
  assert (noSession (NoSessions args) a = false) as ->; [|done].
  unfold noSession. destruct Hid as [->|Hall]; [by rewrite andb_false_r|].
  rewrite Forall_lookup in Hall. destruct (Hall i a Hi) as [Hs|Hb].
  - by rewrite (bool_decide_eq_false_2 _ Hs).
  - rewrite (bool_decide_eq_true_2 _ Hb). simpl. by rewrite andb_false_r.
Qed.

End Props.

(** An instance: two hits, no sessions, both accepted. *)
Lemma count_accepted_all_buffered_witness :
  ∃ args, (None : option error) = None ∧
    (inr {| NoSessions := true;
            Hits := [pageview "/foo" "" "" ""; pageview "/bar" "" "" ""] |}
       : error + apiCountRequest) = inr args ∧
    (1 ≤ length (Hits args) ≤ 100)%nat ∧
    JObject {[ "status"%string := JString "ok" ]}
      = JObject {[ "status"%string := JString "ok" ]} ∧
    (Count.count unit noGeo noDefaults pathRequired tt None
       (inr {| NoSessions := true;
               Hits := [pageview "/foo" "" "" ""; pageview "/bar" "" "" ""] |})
       [bareHit "/old"]).2
      = [bareHit "/old"] ++ (Count.prepared unit noGeo noDefaults tt <$> Hits args).
Proof.
  apply (count_accepted_all_buffered unit noGeo noDefaults pathRequired tt None
           (inr {| NoSessions := true;
                   Hits := [pageview "/foo" "" "" ""; pageview "/bar" "" "" ""] |})
           [bareHit "/old"]).
  vm_compute. reflexivity.
Defined.

(** An instance: a request of one hit, then a request of two. *)
Lemma count_batches_compose_witness :
  (Count.count unit noGeo noDefaults pathRequired tt None
     (inr {| NoSessions := false;
             Hits := [pageview "/a" "" "" "s"] ++
                     [pageview "" "" "" "s"; pageview "/c" "" "" ""] |}) []).2
  = (Count.count unit noGeo noDefaults pathRequired tt None
       (inr {| NoSessions := false;
               Hits := [pageview "" "" "" "s"; pageview "/c" "" "" ""] |})
       (Count.count unit noGeo noDefaults pathRequired tt None
          (inr {| NoSessions := false; Hits := [pageview "/a" "" "" "s"] |})
          []).2).2 ∧
  ((Count.count unit noGeo noDefaults pathRequired tt None
      (inr {| NoSessions := false;
              Hits := [pageview "/a" "" "" "s"] ++
                      [pageview "" "" "" "s"; pageview "/c" "" "" ""] |}) []).1
     = Wrote 202 (JObject {[ "status"%string := JString "ok" ]}) ↔
   (Count.count unit noGeo noDefaults pathRequired tt None
      (inr {| NoSessions := false; Hits := [pageview "/a" "" "" "s"] |}) []).1
     = Wrote 202 (JObject {[ "status"%string := JString "ok" ]}) ∧
   (Count.count unit noGeo noDefaults pathRequired tt None
      (inr {| NoSessions := false;
              Hits := [pageview "" "" "" "s"; pageview "/c" "" "" ""] |})
      (Count.count unit noGeo noDefaults pathRequired tt None
         (inr {| NoSessions := false; Hits := [pageview "/a" "" "" "s"] |})
         []).2).1
     = Wrote 202 (JObject {[ "status"%string := JString "ok" ]})).
Proof.
  apply (count_batches_compose unit noGeo noDefaults pathRequired tt false
           [pageview "/a" "" "" "s"]
           [pageview "" "" "" "s"; pageview "/c" "" "" ""] []);
    simpl; lia.
Defined.

(** An instance: sessions off, one hit without a path. *)
Lemma count_identified_hits_witness :
  ∃ errs : gmap nat string,
    (∀ i, errs !! i =
          [pageview "/a" "" "" ""; pageview "" "" "" ""] !! i
            ≫= λ a, pathRequired tt (Count.prepared unit noGeo noDefaults tt a)) ∧
    (Count.count unit noGeo noDefaults pathRequired tt None
       (inr {| NoSessions := true;
               Hits := [pageview "/a" "" "" ""; pageview "" "" "" ""] |}) []).1 =
      (if decide (errs = ∅)
       then Wrote 202 (JObject {[ "status"%string := JString "ok" ]})
       else Wrote 400 (JObject {[ "errors"%string := intMapJSON errs ]})).
Proof.
  apply (count_identified_hits unit noGeo noDefaults pathRequired tt
           {| NoSessions := true;
              Hits := [pageview "/a" "" "" ""; pageview "" "" "" ""] |} []).
  - simpl. lia.
  - by left.
Defined.

End CountMore.

(** ** Authorization *)

Module AuthProps.
Import Http Auth.

Lemma need_nil_covers perm have : need perm have = [] ↔ covers perm have.
Proof.
  unfold need, covers.
  destruct (PermCount perm), (PermCount have), (PermExport perm),
    (PermExport have); simpl; (split; [by intros ?|]);
    intros [H1 H2]; try done;
    try (by specialize (H1 eq_refl)); by specialize (H2 eq_refl).
Qed.

Lemma need_count perm have :
  "count"%string ∈ need perm have ↔
  PermCount perm = true ∧ PermCount have = false.
Proof.
  unfold need.
  destruct (PermCount perm), (PermCount have), (PermExport perm),
    (PermExport have); simpl;
    (split;
     [ intros Hin; apply list_elem_of_In in Hin; simpl in Hin;
       first [ by split | exfalso; intuition discriminate ]
     | intros [H1 H2]; try discriminate; apply list_elem_of_In; simpl; auto ]).
Qed.

Lemma need_export perm have :
  "export"%string ∈ need perm have ↔
  PermExport perm = true ∧ PermExport have = false.
Proof.
  unfold need.
  destruct (PermCount perm), (PermCount have), (PermExport perm),
    (PermExport have); simpl;
    (split;
     [ intros Hin; apply list_elem_of_In in Hin; simpl in Hin;
       first [ by split | exfalso; intuition discriminate ]
     | intros [H1 H2]; try discriminate; apply list_elem_of_In; simpl; auto ]).
Qed.

Lemma need_length_covers perm have :
  ¬ (0 < length (need perm have))%nat ↔ covers perm have.
Proof.
  rewrite <- need_nil_covers. destruct (need perm have); simpl; split;
    try done; try lia.
Qed.

Section Props.
Variable User : Type.
Variable Fields : string → list string.
Variable ByToken : string → found APIToken.
Variable BySite : Z → error + User.

Abbreviation auth := (Auth.auth User Fields ByToken BySite).

Lemma bearer_or_not header :
  (∃ tok, Fields header = ["Bearer"%string; tok]) ∨
  ¬ (∃ tok, Fields header = ["Bearer"%string; tok]).
Proof.
  destruct (Fields header) as [|b0 [|b1 [|??]]];
    try (right; by intros [? ?]).
  destruct (decide (b0 = "Bearer"%string)) as [->|Hb]; [left; eauto|].
  right. intros [? [= ? ?]]. done.
Qed.

(** What [auth] does with a header of the right form. *)
Lemma auth_bearer header tok perm :
  header ≠ ""%string → Fields header = ["Bearer"%string; tok] →
  auth header perm =
  match ByToken tok with
  | NoRows => (Some unknownTokenError, None)
  | QueryError e => (Some e, None)
  | Row token =>
    match BySite (TokenSiteID token) with
    | inl e => (Some e, None)
    | inr user =>
      if bool_decide (0 < length (need perm (Permissions token)))%nat
      then (Some (needError (need perm (Permissions token))), Some user)
      else (None, Some user)
    end
  end.
Proof.
  intros Hne Hf. unfold Auth.auth.
  rewrite bool_decide_eq_false_2, Hf by done.
  by rewrite bool_decide_eq_false_2 by (by intros ?).
Qed.

(** What [auth] does with any other header. *)
Lemma auth_not_bearer header perm :
  header = ""%string ∨ (¬ ∃ tok, Fields header = ["Bearer"%string; tok]) →
  auth header perm =
  (Some (if bool_decide (header = ""%string) then noHeaderError
         else wrongFormatError), None).
Proof.
  intros Hbad. unfold Auth.auth. case_bool_decide as Hempty; [done|].
  destruct Hbad as [?|Hbad]; [done|].
  destruct (Fields header) as [|b0 [|b1 [|??]]]; try done.
  case_bool_decide as Hb; [done|]. destruct Hbad. exists b1.
  f_equal. by destruct (decide (b0 = "Bearer"%string)).
Qed.

(** A request that [auth] lets through came with a known token that
    covers what is asked for; its user is in the context. *)
Lemma auth_None_inv header perm :
  (auth header perm).1 = None →
  header ≠ ""%string ∧
  ∃ tok token user,
    Fields header = ["Bearer"%string; tok] ∧ ByToken tok = Row token ∧
    BySite (TokenSiteID token) = inr user ∧
    covers perm (Permissions token) ∧
    (auth header perm).2 = Some user.
Proof.
  destruct (decide (header = ""%string)) as [Hempty|Hne].
  { by rewrite auth_not_bearer by (by left). }
  destruct (bearer_or_not header) as [[tok Hf]|Hnot].
  2:{ by rewrite auth_not_bearer by (by right). }
  rewrite (auth_bearer _ tok) by done.
  destruct (ByToken tok) as [token| |e] eqn:Ht; simpl; [|done..].
  destruct (BySite (TokenSiteID token)) as [e|user] eqn:Hu; simpl; [done|].
  case_bool_decide as Hneed; simpl; [done|]. intros _. split; [done|].
  exists tok, token, user. split_and!; [done..| |done].
  by apply need_length_covers.
Qed.

(** A known token that covers what is asked for gets through. *)
Lemma auth_None_intro header perm tok token user :
  header ≠ ""%string → Fields header = ["Bearer"%string; tok] →
  ByToken tok = Row token → BySite (TokenSiteID token) = inr user →
  covers perm (Permissions token) →
  auth header perm = (None, Some user).
Proof.
  intros Hne Hf Ht Hu Hcov. rewrite (auth_bearer _ tok), Ht, Hu by done.
  rewrite bool_decide_eq_false_2; [done|].
  by apply need_length_covers in Hcov.
Qed.

(** A request is let through exactly when its header is [Bearer] and a
    token, the token is known, the user of its site is found, and the token
    has every permission the handler asks for; the user is then in the
    context of the request. *)
Theorem auth_granted_iff header perm :
  ((auth header perm).1 = None ↔
   header ≠ ""%string ∧
   ∃ tok token user,
     Fields header = ["Bearer"%string; tok] ∧ ByToken tok = Row token ∧
     BySite (TokenSiteID token) = inr user ∧
     covers perm (Permissions token)) ∧
  ((auth header perm).1 = None → ∃ user, (auth header perm).2 = Some user).
Proof.
  split; [split|].
  - intros Hok.
    destruct (auth_None_inv _ _ Hok)
      as (Hne & tok & token & user & Hf & Ht & Hu & Hcov & _).
    split; [done|]. by exists tok, token, user.
  - intros (Hne & tok & token & user & Hf & Ht & Hu & Hcov).
    by rewrite (auth_None_intro _ _ tok token user).
  - intros Hok.
    destruct (auth_None_inv _ _ Hok) as (_ & _ & _ & user & _ & _ & _ & _ & Hctx).
    by exists user.
Qed.

(** Every error [auth] makes itself is a 403; any other error it returns is
    the one the lookup of the token or of the user gave. *)
Theorem auth_errors_forbidden_or_lookup header perm e :
  (auth header perm).1 = Some e →
  (∃ msg, e = Guru 403 msg) ∨
  (∃ tok, ByToken tok = QueryError e) ∨
  (∃ site, BySite site = inl e).
Proof.
  unfold Auth.auth. case_bool_decide; simpl.
  { intros [= <-]. left. by eexists. }
  destruct (Fields header) as [|b0 [|b1 [|??]]]; simpl;
    try (intros [= <-]; left; by eexists).
  case_bool_decide; simpl; [intros [= <-]; left; by eexists|].
  destruct (ByToken b1) as [token| |e'] eqn:Ht; simpl.
  - destruct (BySite (TokenSiteID token)) as [e'|user] eqn:Hu; simpl.
    + intros [= <-]. right. right. eauto.
    + case_bool_decide; simpl; [|done]. intros [= <-]. left. by eexists.
  - intros [= <-]. left. by eexists.
  - intros [= <-]. right. left. eauto.
Qed.

(** A request without a header, or with one that is not [Bearer] and a
    token, is turned down without a look at the tokens or the users. *)
Theorem auth_malformed_no_lookup
    (ByToken' : string → found APIToken) (BySite' : Z → error + User)
    header perm :
  header = ""%string ∨ (¬ ∃ tok, Fields header = ["Bearer"%string; tok]) →
  auth header perm = Auth.auth User Fields ByToken' BySite' header perm ∧
  ∃ msg, auth header perm = (Some (Guru 403 msg), None).
Proof.
  intros Hbad. rewrite auth_not_bearer by done.
  split.
  - unfold Auth.auth. case_bool_decide as Hempty; [done|].
    destruct Hbad as [?|Hbad]; [done|].
    destruct (Fields header) as [|b0 [|b1 [|??]]]; try done.
    case_bool_decide as Hb; [done|]. destruct Hbad. exists b1.
    f_equal. by destruct (decide (b0 = "Bearer"%string)).
  - case_bool_decide; by eexists.
Qed.

(** A token that gets a request through under some permissions gets it
    through under any part of them. *)
Theorem auth_monotone header perm perm' :
  covers perm' perm →
  (auth header perm).1 = None → (auth header perm').1 = None.
Proof.
  intros [Hc He] Hok.
  apply auth_None_inv in Hok
    as (Hne & tok & token & user & ? & ? & ? & [Hc' He'] & _).
  rewrite (auth_None_intro _ _ tok token user); [done..|]. split; auto.
Qed.

(** With a known token and user, the request is turned down with a 403 that
    names exactly the permissions asked for and not held, [count] before
    [export]; the user is in the context all the same. *)
Theorem auth_missing_permissions header tok token user perm :
  header ≠ ""%string → Fields header = ["Bearer"%string; tok] →
  ByToken tok = Row token → BySite (TokenSiteID token) = inr user →
  ¬ covers perm (Permissions token) →
  auth header perm
    = (Some (needError (need perm (Permissions token))), Some user) ∧
  (need perm (Permissions token) = ["count"%string] ∨
   need perm (Permissions token) = ["export"%string] ∨
   need perm (Permissions token) = ["count"%string; "export"%string]) ∧
  ("count"%string ∈ need perm (Permissions token) ↔
   PermCount perm = true ∧ PermCount (Permissions token) = false) ∧
  ("export"%string ∈ need perm (Permissions token) ↔
   PermExport perm = true ∧ PermExport (Permissions token) = false).
Proof.
  intros Hne Hf Ht Hu Hcov. rewrite (auth_bearer _ tok), Ht, Hu by done.
  split_and!.
  - rewrite bool_decide_eq_true_2; [done|].
    destruct (decide (0 < length (need perm (Permissions token)))%nat);
      [done|]. by apply need_length_covers in n.
  - rewrite <- need_nil_covers in Hcov. revert Hcov. unfold need.
    destruct (PermCount perm), (PermCount (Permissions token)),
      (PermExport perm), (PermExport (Permissions token)); simpl; auto;
      by intros [].
  - apply need_count.
  - apply need_export.
Qed.

(** The message of the API test: both permissions asked for, none held. *)
Example needError_both :
  needError (need {| PermCount := true; PermExport := true |}
                  {| PermCount := false; PermExport := false |})
  = Guru 403 "requires [count export] permissions".
Proof. by vm_compute. Qed.

End Props.
End AuthProps.

(** ** The export handlers, further *)

Module ExportsMore.
Import Http Exports ExportsProps ExportsView.

Lemma slash_or_not (c : ascii) : c = "/"%char ∨ c ≠ "/"%char.
Proof. destruct (decide (c = "/"%char)); auto. Qed.

Lemma stripSlashes_cons c l : c ≠ "/"%char → stripSlashes (c :: l) = c :: l.
Proof.
  intros Hc. destruct c as [[] [] [] [] [] [] [] []]; try done.
Qed.

Lemma lastElement_cons c l :
  c ≠ "/"%char → lastElement (c :: l) = c :: lastElement l.
Proof.
  intros Hc. destruct c as [[] [] [] [] [] [] [] []]; try done.
Qed.

Lemma lastElement_noSlash l : Forall (λ c, c ≠ "/"%char) (lastElement l).
Proof.
  induction l as [|c l IH]; [constructor|].
  destruct (slash_or_not c) as [->|Hc]; [constructor|].
  rewrite lastElement_cons by done. by constructor.
Qed.

Lemma lastElement_all l : Forall (λ c, c ≠ "/"%char) l → lastElement l = l.
Proof.
  induction 1 as [|c l Hc _ IH]; [done|].
  rewrite lastElement_cons by done. by rewrite IH.
Qed.

Lemma Base_cases path :
  Base path = "."%string ∧ path = ""%string ∨
  Base path = "/"%string ∨
  Base path ≠ ""%string ∧ noSlash (Base path).
Proof.
  unfold Base. case_bool_decide; [by left|]. right.
  case_bool_decide as Hb; [by left|]. right. split; [done|].
  unfold noSlash. rewrite list_ascii_of_string_of_list_ascii.
  apply Forall_reverse, lastElement_noSlash.
Qed.

Lemma Base_noSlash name :
  name ≠ ""%string → noSlash name → Base name = name.
Proof.
  intros Hne Hno. unfold Base. rewrite bool_decide_eq_false_2 by done.
  unfold noSlash in Hno.
  assert (list_ascii_of_string name ≠ []) as Hl.
  { intros Hnil. apply Hne. rewrite <- (string_of_list_ascii_of_string name).
    by rewrite Hnil. }
  assert (stripSlashes (reverse (list_ascii_of_string name))
          = reverse (list_ascii_of_string name)) as ->.
  { destruct (reverse (list_ascii_of_string name)) as [|c l] eqn:Hr; [done|].
    apply stripSlashes_cons.
    assert (Forall (λ c, c ≠ "/"%char) (c :: l)) as Hall
      by (rewrite <- Hr; by apply Forall_reverse).
    by apply Forall_cons in Hall as [? _]. }
  rewrite lastElement_all by (by apply Forall_reverse).
  rewrite reverse_involutive, string_of_list_ascii_of_string.
  by rewrite bool_decide_eq_false_2.
Qed.

(** The base name of a path has no directory part: it is the path [/], or
    it is not empty and has no separator in it. Taking it again changes
    nothing. *)
Theorem Base_has_no_directory path :
  (Base path = "/"%string ∨ Base path ≠ ""%string ∧ noSlash (Base path)) ∧
  Base (Base path) = Base path.
Proof.
  destruct (Base_cases path) as [[-> _]|[->|[Hne Hno]]].
  - split; [|by vm_compute]. right. split; [done|].
    repeat constructor. done.
  - split; [by left|by vm_compute].
  - split; [by right|]. by apply Base_noSlash.
Qed.

Section Props.
Variable exportPath : Z → Z → string.
Variable now : Z.
Variable parseID : string → option Z.
Variable contentDisposition : string → error + string.

Abbreviation exportHandler := (Exports.exportHandler exportPath now).
Abbreviation exportDownload := (Exports.exportDownload parseID contentDisposition).
Abbreviation exportGet := (Api.exportGet parseID).

(** What the download handler can answer: it streams only the bytes of the
    file at the stored path of a known export, under the two headers; it
    redirects only when that file does not exist; it never writes a JSON
    body. *)
Theorem exportDownload_answers auth idParam js open :
  (∀ headers content,
     exportDownload auth idParam js open = Streamed headers content →
     auth = None ∧
     ∃ id j v, parseID idParam = Some id ∧ js !! id = Some j ∧
       open (Path (export j)) = Opened content ∧
       contentDisposition (Base (Path (export j))) = inr v ∧
       headers = <["Content-Type"%string := "application/gzip"%string]>
                   {[ "Content-Disposition"%string := v ]}) ∧
  (∀ flash location,
     exportDownload auth idParam js open = SeeOther flash location →
     flash = flashNoExport ∧ location = settingsExportTab ∧
     ∃ id j, parseID idParam = Some id ∧ js !! id = Some j ∧
       open (Path (export j)) = NotExist) ∧
  (∀ code body, exportDownload auth idParam js open ≠ Wrote code body).
Proof.
  unfold Exports.exportDownload, ByID.
  destruct auth as [e|]; [by split_and!|].
  destruct (parseID idParam) as [id|]; [|by split_and!].
  destruct (js !! id) as [j|] eqn:Hj; [|by split_and!].
  destruct (open (Path (export j))) as [content| |err] eqn:Hopen.
  - destruct (contentDisposition _) as [err|v] eqn:Hcd; [by split_and!|].
    split_and!; [|done|done].
    intros ?? [= <- <-]. split; [done|]. by exists id, j, v.
  - split_and!; [done| |done]. intros ?? [= <- <-].
    split_and!; [done|done|]. by exists id, j.
  - by split_and!.
Qed.

(** GET and download go the same way up to the lookup of the export: an
    error of GET is the answer of download too, and GET writes a body only
    for a known id, with the status 200 and the JSON of that export. *)
Theorem exportGet_follows_download auth idParam js open :
  (∀ e, exportGet auth idParam js = Returned e →
        exportDownload auth idParam js open = Returned e) ∧
  (∀ code body, exportGet auth idParam js = Wrote code body →
     auth = None ∧ code = 200 ∧
     ∃ id j, parseID idParam = Some id ∧ js !! id = Some j ∧
             body = exportJSON (export j)) ∧
  (∀ id j, auth = None → parseID idParam = Some id → js !! id = Some j →
     exportGet auth idParam js = Wrote 200 (exportJSON (export j))).
Proof.
  unfold Api.exportGet, Exports.exportDownload, ByID.
  destruct auth as [e|]; [by split_and!|].
  destruct (parseID idParam) as [id|]; [|by split_and!].
  destruct (js !! id) as [j|] eqn:Hj.
  2:{ split_and!; [done|done|]. intros ?? _ [= <-] ?. congruence. }
  split_and!; [done| |].
  - intros ?? [= <- <-]. split_and!; [done|done|]. by exists id, j.
  - intros ?? _ [= <-] ?. congruence.
Qed.

End Props.

End ExportsMore.

(** ** The handlers behind [auth] *)

Module ApiProps.
Import Http Auth Api AuthProps.

Section Props.
Variable User : Type.
Variable Fields : string → list string.
Variable ByToken : string → found APIToken.
Variable BySite : Z → error + User.
Variable Ctx : Type.
Variable WithUser : Ctx → User → Ctx.
Variable geo : string → string.
Variable Defaults : Ctx → Count.Hit → Count.Hit.
Variable Validate : Ctx → Count.Hit → option string.
Variable exportPath : Z → Z → string.
Variable now : Z.
Variable parseID : string → option Z.
Variable contentDisposition : string → error + string.

Abbreviation auth := (Auth.auth User Fields ByToken BySite).
Abbreviation countRequest :=
  (Api.countRequest User Fields ByToken BySite Ctx WithUser geo Defaults Validate).
Abbreviation exportRequest :=
  (Api.exportRequest User Fields ByToken BySite exportPath now).
Abbreviation getRequest := (Api.getRequest User Fields ByToken BySite parseID).
Abbreviation downloadRequest :=
  (Api.downloadRequest User Fields ByToken BySite parseID contentDisposition).

(** A token that lacks a permission asked for does not get through. *)
Lemma auth_refuses header tok token perm :
  Fields header = ["Bearer"%string; tok] → ByToken tok = Row token →
  ¬ covers perm (Permissions token) →
  ∃ e, (auth header perm).1 = Some e.
Proof.
  intros Hf Ht Hcov.
  destruct (auth header perm).1 as [e|] eqn:Ha; [by eauto|].
  apply (auth_None_inv User Fields ByToken BySite) in Ha
    as (_ & tok' & token' & user & Hf' & Ht' & _ & Hcov' & _).
  assert (tok' = tok) as -> by congruence.
  assert (token' = token) as -> by congruence. done.
Qed.

(** A request whose token lacks the permission of the handler changes
    nothing: with no [count] permission the buffer stays as it is; with no
    [export] permission no export is made and no background run started,
    and neither GET nor download get to the store or the file. *)
Theorem handlers_refuse_without_permission header tok token :
  Fields header = ["Bearer"%string; tok] → ByToken tok = Row token →
  (PermCount (Permissions token) = false →
     ∀ ctx decoded mem,
       ∃ e, countRequest ctx header decoded mem = (Returned e, mem)) ∧
  (PermExport (Permissions token) = false →
     (∀ policy decoded site w,
        ∃ e, exportRequest policy header decoded site w = (Returned e, w)) ∧
     (∀ idParam js, ∃ e, getRequest header idParam js = Returned e) ∧
     (∀ idParam js open,
        ∃ e, downloadRequest header idParam js open = Returned e)).
Proof.
  intros Hf Ht. split.
  - intros Hno ctx decoded mem.
    destruct (auth_refuses header tok token permCount Hf Ht) as [e He].
    { intros [Hc _]. specialize (Hc eq_refl). congruence. }
    exists e. unfold Api.countRequest. simpl. by rewrite He.
  - intros Hno.
    destruct (auth_refuses header tok token permExport Hf Ht) as [e He].
    { intros [_ Hc]. specialize (Hc eq_refl). congruence. }
    split_and!.
    + intros. exists e. unfold Api.exportRequest. by rewrite He.
    + intros. exists e. unfold Api.getRequest. by rewrite He.
    + intros. exists e. unfold Api.downloadRequest. by rewrite He.
Qed.

(** The buffer changes only for a request that [auth] lets through. *)
Theorem countRequest_changes_need_auth ctx header decoded mem :
  (countRequest ctx header decoded mem).2 ≠ mem →
  (auth header permCount).1 = None ∧
  ∃ tok token user,
    Fields header = ["Bearer"%string; tok] ∧ ByToken tok = Row token ∧
    BySite (TokenSiteID token) = inr user ∧
    PermCount (Permissions token) = true.
Proof.
  intros Hchanged.
  destruct (auth header permCount).1 as [e|] eqn:Ha.
  { destruct Hchanged. unfold Api.countRequest. simpl. by rewrite Ha. }
  split; [done|].
  apply (auth_None_inv User Fields ByToken BySite) in Ha
    as (_ & tok & token & user & ? & ? & ? & [Hc _] & _).
  exists tok, token, user. split_and!; [done..|]. by apply Hc.
Qed.

End Props.

(** An instance: the token that may export, at the four handlers. *)
Lemma handlers_refuse_without_permission_witness :
  (PermCount (Permissions {| TokenSiteID := 1; Permissions := permExport |})
     = false →
     ∀ ctx decoded mem,
       ∃ e, Api.countRequest string demoFields demoByToken demoBySite unit
              (λ c _, c) Count.noGeo Count.noDefaults Count.pathRequired
              ctx "Bearer exporter" decoded mem = (Returned e, mem)) ∧
  (PermExport (Permissions {| TokenSiteID := 1; Permissions := permExport |})
     = false →
     (∀ policy decoded site w,
        ∃ e, Api.exportRequest string demoFields demoByToken demoBySite
               Exports.demoPath 0 policy "Bearer exporter" decoded site w
             = (Returned e, w)) ∧
     (∀ idParam js,
        ∃ e, Api.getRequest string demoFields demoByToken demoBySite
               Exports.demoParseID "Bearer exporter" idParam js = Returned e) ∧
     (∀ idParam js open,
        ∃ e, Api.downloadRequest string demoFields demoByToken demoBySite
               Exports.demoParseID Exports.demoDisposition "Bearer exporter"
               idParam js open = Returned e)).
Proof.
  apply (handlers_refuse_without_permission string demoFields demoByToken
           demoBySite unit (λ c _, c) Count.noGeo Count.noDefaults
           Count.pathRequired Exports.demoPath 0 Exports.demoParseID
           Exports.demoDisposition "Bearer exporter" "exporter"
           {| TokenSiteID := 1; Permissions := permExport |}).
  - vm_compute. reflexivity.
  - vm_compute. reflexivity.
Defined.

(** An instance: a counted hit under the token that may count. *)
Lemma countRequest_changes_need_auth_witness :
  (Auth.auth string demoFields demoByToken demoBySite "Bearer counter"
     permCount).1 = None ∧
  ∃ tok token user,
    demoFields "Bearer counter" = ["Bearer"%string; tok] ∧
    demoByToken tok = Row token ∧
    demoBySite (TokenSiteID token) = inr user ∧
    PermCount (Permissions token) = true.
Proof.
  apply (countRequest_changes_need_auth string demoFields demoByToken
           demoBySite unit (λ c _, c) Count.noGeo Count.noDefaults
           Count.pathRequired tt "Bearer counter"
           (inr {| Count.NoSessions := true;
                   Count.Hits := [Count.pageview "/a" "" "" ""] |}) []).
  vm_compute. discriminate.
Defined.

(** Instances for [auth]: a header without a token, the token that may
    count asked for both permissions, and asked for less. *)
Lemma auth_errors_forbidden_or_lookup_witness :
  (∃ msg, wrongFormatError = Guru 403 msg) ∨
  (∃ tok, demoByToken tok = QueryError wrongFormatError) ∨
  (∃ site, demoBySite site = inl wrongFormatError).
Proof.
  apply (AuthProps.auth_errors_forbidden_or_lookup string demoFields
           demoByToken demoBySite "Basic" permCount wrongFormatError).
  vm_compute. reflexivity.
Defined.

Lemma auth_malformed_no_lookup_witness :
  Auth.auth string demoFields demoByToken demoBySite "Token counter" permCount
    = Auth.auth string demoFields (λ _, NoRows) (λ _, inr "nobody"%string)
        "Token counter" permCount ∧
  ∃ msg, Auth.auth string demoFields demoByToken demoBySite "Token counter"
           permCount = (Some (Guru 403 msg), None).
Proof.
  apply (AuthProps.auth_malformed_no_lookup string demoFields demoByToken
           demoBySite (λ _, NoRows) (λ _, inr "nobody"%string)
           "Token counter" permCount).
  right. intros [tok Hf]. vm_compute in Hf. discriminate Hf.
Defined.

Lemma auth_monotone_witness :
  (Auth.auth string demoFields demoByToken demoBySite "Bearer counter"
     {| PermCount := false; PermExport := false |}).1 = None.
Proof.
  apply (AuthProps.auth_monotone string demoFields demoByToken demoBySite
           "Bearer counter" permCount {| PermCount := false; PermExport := false |}).
  - split; discriminate.
  - vm_compute. reflexivity.
Defined.

Lemma auth_missing_permissions_witness :
  Auth.auth string demoFields demoByToken demoBySite "Bearer counter"
    {| PermCount := true; PermExport := true |}
    = (Some (needError (need {| PermCount := true; PermExport := true |}
                             (Permissions {| TokenSiteID := 1;
                                             Permissions := permCount |}))),
       Some "admin"%string) ∧
  (need {| PermCount := true; PermExport := true |}
        (Permissions {| TokenSiteID := 1; Permissions := permCount |})
     = ["count"%string] ∨
   need {| PermCount := true; PermExport := true |}
        (Permissions {| TokenSiteID := 1; Permissions := permCount |})
     = ["export"%string] ∨
   need {| PermCount := true; PermExport := true |}
        (Permissions {| TokenSiteID := 1; Permissions := permCount |})
     = ["count"%string; "export"%string]) ∧
  ("count"%string ∈ need {| PermCount := true; PermExport := true |}
                      (Permissions {| TokenSiteID := 1;
                                      Permissions := permCount |}) ↔
   PermCount {| PermCount := true; PermExport := true |} = true ∧
   PermCount (Permissions {| TokenSiteID := 1; Permissions := permCount |})
     = false) ∧
  ("export"%string ∈ need {| PermCount := true; PermExport := true |}
                       (Permissions {| TokenSiteID := 1;
                                       Permissions := permCount |}) ↔
   PermExport {| PermCount := true; PermExport := true |} = true ∧
   PermExport (Permissions {| TokenSiteID := 1; Permissions := permCount |})
     = false).
Proof.
  apply (AuthProps.auth_missing_permissions string demoFields demoByToken
           demoBySite "Bearer counter" "counter"
           {| TokenSiteID := 1; Permissions := permCount |} "admin"%string
           {| PermCount := true; PermExport := true |}).
  - discriminate.
  - vm_compute. reflexivity.
  - vm_compute. reflexivity.
  - vm_compute. reflexivity.
  - intros [_ Hc]. specialize (Hc eq_refl). discriminate Hc.
Defined.

End ApiProps.

(** ** The replay importer, further *)

Module ReplayMore.
Import Http Replay ReplayView ReplayProps.

Lemma assignIP_fields st s :
  start (assignIP st s).2 = start st ∧
  requests (assignIP st s).2 = requests st.
Proof. unfold assignIP. by destruct (ips st !! s). Qed.

(** The truncated remainder and the floor quotient by 256 fix a number. *)
Lemma quot_rem_256 x y :
  x `div` 256 = y `div` 256 → x `rem` 256 = y `rem` 256 → x = y.
Proof. intros. Z.to_euclidean_division_equations; lia. Qed.

(** Two counter values give two addresses, wrapped or not. *)
Lemma synthIP_inj_all n m : synthIP n = synthIP m → n = m.
Proof.
  intros Heq.
  change (dotted (n ≫ 24) ((n ≫ 16) `rem` 256) ((n ≫ 8) `rem` 256)
            (n `rem` 256)
          = dotted (m ≫ 24) ((m ≫ 16) `rem` 256) ((m ≫ 8) `rem` 256)
              (m `rem` 256)) in Heq.
  apply dotted_inj in Heq as (Ha & Hb & Hc & Hd).
  rewrite !Z.shiftr_div_pow2 in * by lia.
  change (2 ^ 8) with 256 in Hc. change (2 ^ 16) with (256 * 256) in Hb.
  change (2 ^ 24) with (256 * 256 * 256) in Ha.
  apply quot_rem_256; [|exact Hd].
  apply quot_rem_256; [|exact Hc].
  rewrite !Z.div_div by lia.
  apply quot_rem_256; [|exact Hb].
  rewrite !Z.div_div by lia. exact Ha.
Qed.

Lemma wrap32_int32 z : int32 (wrap32 z).
Proof.
  unfold int32, wrap32. pose proof (Z.mod_pos_bound (z + 2 ^ 31) (2 ^ 32)).
  lia.
Qed.

Lemma wrap32_inj a b :
  0 ≤ a < 2 ^ 32 → 0 ≤ b < 2 ^ 32 → wrap32 a = wrap32 b → a = b.
Proof.
  unfold wrap32. change (2 ^ 31) with 2147483648.
  change (2 ^ 32) with 4294967296.
  intros. Z.to_euclidean_division_equations; lia.
Qed.

(** The address made of an [int32] counter value is a dotted quad of
    numbers from 0 to 255 exactly when the value is not negative. *)
Lemma synthIP_valid_iff n : int32 n → (validIPv4 (synthIP n) ↔ 0 ≤ n).
Proof.
  unfold int32. intros Hn. split.
  - intros (a & b & c & d & Heq & Ha & _).
    change (synthIP n) with
      (dotted (n ≫ 24) ((n ≫ 16) `rem` 256) ((n ≫ 8) `rem` 256)
         (n `rem` 256)) in Heq.
    apply dotted_inj in Heq as (Heq & _).
    rewrite Z.shiftr_div_pow2 in Heq by lia.
    destruct (decide (0 ≤ n)) as [|Hneg]; [done|].
    assert (n `div` 2 ^ 24 < 0) by (apply Z.div_lt_upper_bound; lia). lia.
  - intros Hpos. destruct (synthIP_dotted n) as (Heq & _ & Ha); [lia|].
    eexists _, _, _, _. split; [exact Heq|].
    pose proof (Z.mod_pos_bound (n `div` 2 ^ 16) 256).
    pose proof (Z.mod_pos_bound (n `div` 2 ^ 8) 256).
    pose proof (Z.mod_pos_bound n 256). lia.
Qed.

Lemma wrap32_sign k :
  0 ≤ k < 2 ^ 32 → (0 ≤ wrap32 k ↔ k < 2 ^ 31).
Proof.
  unfold wrap32. change (2 ^ 31) with 2147483648.
  change (2 ^ 32) with 4294967296.
  intros. Z.to_euclidean_division_equations; lia.
Qed.

Lemma Unix_succ now : Unix (now + 1 * second) = Unix now + 1.
Proof. unfold Unix, second. by rewrite Z.div_add by lia. Qed.

(** An iteration of the replay loop fires what the map held for its second
    at the start of the loop: no removal before it touches that second. *)
Lemma replayLoop_fired sleep wall fuel : ∀ k now reqs j t,
  (replayLoop fuel sleep wall k now reqs).1 !! j = Some t →
  tFired t = default [] (reqs !! (Unix now + Z.of_nat j)).
Proof.
  induction fuel as [|fuel IH]; intros k now reqs j t; simpl.
  { by rewrite lookup_nil. }
  case_bool_decide as Hpass; simpl.
  - destruct j as [|j]; simpl; [|by rewrite lookup_nil].
    intros [= <-]. simpl. by rewrite Z.add_0_r.
  - destruct j as [|j]; simpl.
    + intros [= <-]. simpl. by rewrite Z.add_0_r.
    + intros Ht. apply IH in Ht as ->. rewrite Unix_succ.
      generalize (Unix now). intros u.
      rewrite lookup_delete_ne by lia.
      by replace (u + 1 + Z.of_nat j) with (u + Z.of_nat (S j)) by lia.
Qed.

(** The requests of the seconds [u], ..., [u + n - 1], second by second,
    are the requests of the window from [u] to [u + n], rearranged. *)
Lemma window_perm {A B} (f : A → Z) (g : A → B) (l : list A) u (n : nat) :
  concat ((λ j : nat, g <$> filter (λ p, f p = u + Z.of_nat j) l) <$> seq 0 n)
  ≡ₚ g <$> filter (λ p, u ≤ f p < u + Z.of_nat n) l.
Proof.
  induction n as [|n IH].
  { simpl. induction l as [|a l IHl]; [done|].
    rewrite filter_cons, decide_False by lia. done. }
  rewrite seq_S, fmap_app, concat_app, IH. simpl. rewrite app_nil_r.
  rewrite <- fmap_app. apply fmap_Permutation.
  clear IH. induction l as [|a l IHl]; [done|].
  rewrite !filter_cons.
  destruct (decide (u ≤ f a < u + Z.of_nat n)) as [Hw|Hw].
  - rewrite decide_False, decide_True by lia. simpl. by rewrite IHl.
  - destruct (decide (f a = u + Z.of_nat n)) as [He|He].
    + rewrite decide_True by lia. rewrite <- Permutation_middle. by rewrite IHl.
    + rewrite decide_False by lia. done.
Qed.

Lemma ticks_fired (ts : list tick) (B : Z → list Request) u :
  (∀ j t, ts !! j = Some t → tFired t = B (u + Z.of_nat j)) →
  tFired <$> ts = (λ j : nat, B (u + Z.of_nat j)) <$> seq 0 (length ts).
Proof.
  intros Hts. apply list_eq. intros j. rewrite !list_lookup_fmap.
  destruct (ts !! j) as [t|] eqn:Ht; simpl.
  - rewrite (Hts _ _ Ht). apply lookup_lt_Some in Ht as Hlt.
    by rewrite lookup_seq_lt.
  - apply lookup_ge_None in Ht. by rewrite lookup_seq_ge.
Qed.

Section Props.
Variable ExportVersion : string.
Variable siteURL : string.
Variable parseRFC3339 : string → option Z.
Variable encodeQuery : list (string * string) → string.

Abbreviation loadRow := (Replay.loadRow siteURL parseRFC3339 encodeQuery).
Abbreviation loadLoop := (Replay.loadLoop siteURL parseRFC3339 encodeQuery).
Abbreviation createdOf := (ReplayView.createdOf parseRFC3339).
Abbreviation bucketOf := (ReplayView.bucketOf parseRFC3339).
Abbreviation startOf := (ReplayView.startOf parseRFC3339).

(** Loading rows and then more reads is loading them all. *)
Lemma loadLoop_app rows : ∀ reads st,
  loadLoop ((inr <$> rows) ++ reads) st =
  match loadLoop (inr <$> rows) st with
  | (inl e, rs) => (inl e, rs)
  | (inr st1, rs1) =>
      ((loadLoop reads st1).1, rs1 ++ (loadLoop reads st1).2)
  end.
Proof.
  induction rows as [|row rows IH]; intros reads st.
  { simpl. by destruct (loadLoop reads st). }
  rewrite fmap_cons. cbn [app Replay.loadLoop].
  destruct (loadRow st row) as [e|[r st1]]; [done|].
  rewrite IH. destruct (loadLoop (inr <$> rows) st1) as [[e|st2] rs]; [done|].
  by destruct (loadLoop reads st2).
Qed.

(** A read that fails ends the loading with its error. *)
Lemma loadLoop_readError read reads st e :
  readError read = Some e → loadLoop (read :: reads) st = (inl e, []).
Proof.
  destruct read as [e'|row]; simpl; [by intros [= ->]|].
  case_bool_decide as Hlen; [done|]. intros [= <-].
  destruct (loadRow st row) as [e'|[r st1]] eqn:Hrow.
  - unfold Replay.loadRow in Hrow.
    do 12 (destruct row as [|? row]; [by simplify_eq/=|]).
    destruct row; [done|by simplify_eq/=].
  - by apply (loadRow_length siteURL parseRFC3339 encodeQuery) in Hrow.
Qed.

(** One row: where its request goes, and what becomes of the start. *)
Lemma loadRow_requests st row r st' :
  loadRow st row = inr (r, st') →
  requests st' = addRequest (Unix (createdOf row)) r (requests st) ∧
  start st' = (if bool_decide (start st = zeroTime) then createdOf row
               else start st).
Proof.
  intros Hrow.
  pose proof (loadRow_length siteURL parseRFC3339 encodeQuery _ _ _ Hrow) as Hlen.
  do 12 (destruct row as [|? row]; [done|]). destruct row; [|done].
  unfold Replay.loadRow in Hrow. unfold ReplayView.createdOf. simpl.
  match type of Hrow with
  | context [assignIP ?st0 ?s] =>
      pose proof (assignIP_fields st0 s) as [Hst Hreq];
      destruct (assignIP st0 s) as [ip st1]
  end.
  simplify_eq/=. rewrite Hst, Hreq. by case_bool_decide.
Qed.

Lemma addRequest_lookup k r m t :
  default [] (addRequest k r m !! t) =
  default [] (m !! t) ++ (if bool_decide (k = t) then [r] else []).
Proof.
  unfold addRequest. case_bool_decide as Hk.
  - subst. by rewrite lookup_insert_eq.
  - rewrite lookup_insert_ne by done. by rewrite app_nil_r.
Qed.

Lemma bucketOf_cons t row rows r rs :
  bucketOf t (row :: rows) (r :: rs) =
  (if bool_decide (Unix (createdOf row) = t) then [r] else [])
  ++ bucketOf t rows rs.
Proof.
  unfold ReplayView.bucketOf. simpl. rewrite filter_cons. simpl.
  case_bool_decide; [by rewrite decide_True|by rewrite decide_False].
Qed.

(** The loop over the rows puts every request in the bucket of its row's
    second, after what the bucket held, in the order of the rows. *)
Lemma loadLoop_requests rows : ∀ st st' rs,
  loadLoop (inr <$> rows) st = (inr st', rs) →
  (∀ t, default [] (requests st' !! t)
        = default [] (requests st !! t) ++ bucketOf t rows rs) ∧
  start st' = startOf (start st) rows.
Proof.
  induction rows as [|row rows IH]; intros st st' rs.
  { simpl. intros [= <- <-]. split; [|done]. intros t.
    unfold ReplayView.bucketOf. simpl. by rewrite app_nil_r. }
  rewrite fmap_cons. cbn [Replay.loadLoop].
  destruct (loadRow st row) as [e|[r st1]] eqn:Hrow; [done|].
  destruct (loadLoop (inr <$> rows) st1) as [res rs'] eqn:Hloop.
  intros [= -> <-].
  destruct (loadRow_requests _ _ _ _ Hrow) as [Hreq Hstart].
  destruct (IH _ _ _ Hloop) as [IHreq IHstart]. split.
  - intros t. rewrite IHreq, Hreq, addRequest_lookup, bucketOf_cons.
    by rewrite app_assoc.
  - rewrite IHstart, Hstart. done.
Qed.

(** After loading, the bucket of each second holds the requests of the rows
    of that second, all of them and in the order of the rows, and the start
    of the replay is the start given or else the time of the first row. *)
Theorem loadLoop_buckets rows start0 st rs :
  loadLoop (inr <$> rows) (initialLoad start0) = (inr st, rs) →
  (∀ t, default [] (requests st !! t) = bucketOf t rows rs) ∧
  start st = startOf start0 rows ∧
  (start0 ≠ zeroTime → start st = start0).
Proof.
  intros Hload. destruct (loadLoop_requests _ _ _ _ Hload) as [Hreq Hstart].
  split_and!; [|done|].
  - intros t. rewrite Hreq. simpl. by rewrite lookup_empty.
  - intros Hne. rewrite Hstart. simpl. clear Hload Hreq Hstart.
    induction rows as [|row rows IH]; [done|]. simpl.
    by rewrite bool_decide_eq_false_2.
Qed.

(** The loading fails at the first read that fails, with the error of that
    read; the requests of the rows before it are built and never
    replayed. *)
Theorem import_first_failing_read fuel header good bad rest e
    speed start0 wall :
  Replay.wrongVersion ExportVersion header = false →
  Forall (λ row, length row = 12%nat) good →
  readError bad = Some e →
  ∃ rs,
    Replay.importReplay ExportVersion siteURL parseRFC3339 encodeQuery fuel
      None (inr header :: (inr <$> good) ++ bad :: rest) speed start0 wall
    = {| result := Some (Exit 1 (Some e)); built := rs; ticks := [] |} ∧
    length rs = length good.
Proof.
  intros Hv Hgood Hbad.
  destruct (loadLoop_total siteURL parseRFC3339 encodeQuery good
              (initialLoad start0) Hgood) as (st1 & rs1 & Hload).
  exists rs1. unfold Replay.importReplay. rewrite Hv, loadLoop_app, Hload.
  rewrite (loadLoop_readError _ _ _ e Hbad). simpl. rewrite app_nil_r.
  split; [done|].
  destruct (loadLoop_addresses siteURL parseRFC3339 encodeQuery good _ [] _ _
              Hload (addressesOf_initial start0)) as [_ Hfin].
  by destruct (Hfin st1 eq_refl) as [? _].
Qed.

(** What the loop over the rows got through, it got through whole. *)
Lemma loadLoop_loaded reads : ∀ st st' rs,
  loadLoop reads st = (inr st', rs) →
  ∃ rows, reads = inr <$> rows ∧
          Forall (λ row, length row = 12%nat) rows ∧ length rs = length rows.
Proof.
  induction reads as [|[e|row] reads IH]; intros st st' rs; simpl.
  - intros [= <- <-]. by exists [].
  - done.
  - destruct (loadRow st row) as [e|[r st1]] eqn:Hrow; [done|].
    destruct (loadLoop reads st1) as [res rs'] eqn:Hloop.
    intros [= -> <-]. destruct (IH _ _ _ Hloop) as (rows & -> & Hall & Hlen).
    exists (row :: rows). split_and!; [done| |simpl; by f_equal].
    apply Forall_cons. split; [|done].
    by apply (loadRow_length siteURL parseRFC3339 encodeQuery) in Hrow.
Qed.

(** Only a whole file is replayed. When the replay loop makes an iteration,
    or the importer returns 0, the statistics were deleted without an
    error, every read of the file went through, the header row carries the
    version and every other row has twelve fields; a request was built for
    each row. *)
Theorem replay_only_whole_files fuel deleteAll reads speed start0 wall :
  ticks (Replay.importReplay ExportVersion siteURL parseRFC3339 encodeQuery
           fuel deleteAll reads speed start0 wall) ≠ [] ∨
  result (Replay.importReplay ExportVersion siteURL parseRFC3339 encodeQuery
            fuel deleteAll reads speed start0 wall) = Some (Exit 0 None) →
  deleteAll = None ∧
  ∃ header rows,
    reads = inr header :: (inr <$> rows) ∧
    Replay.wrongVersion ExportVersion header = false ∧
    Forall (λ row, length row = 12%nat) rows ∧
    length (built (Replay.importReplay ExportVersion siteURL parseRFC3339
                     encodeQuery fuel deleteAll reads speed start0 wall))
      = length rows.
Proof.
  unfold Replay.importReplay.
  destruct deleteAll as [e|]; [by intros [?|?]|].
  destruct reads as [|[e|header] reads]; [by intros [?|?]..|].
  destruct (Replay.wrongVersion ExportVersion header) eqn:Hv.
  { destruct header as [|[|c h] rest]; by intros [?|?]. }
  destruct (loadLoop reads (initialLoad start0)) as [[e|st] rs] eqn:Hload;
    [by intros [?|?]|].
  intros _. split; [done|].
  destruct (loadLoop_loaded _ _ _ _ Hload) as (rows & -> & Hall & Hlen).
  by exists header, rows.
Qed.

(** A file that loads is replayed second by second from its start: the
    iteration [j] stands at the start plus [j] seconds and fires the
    requests of the rows of that second, in the order of the rows; all in
    all the requests fired are those of the rows between the start and the
    last iteration, each once. Rows before the start are not replayed. *)
Theorem replay_fires_rows_by_second fuel header rows speed start0 wall :
  Replay.wrongVersion ExportVersion header = false →
  Forall (λ row, length row = 12%nat) rows →
  (∀ j t,
     ticks (Replay.importReplay ExportVersion siteURL parseRFC3339 encodeQuery
              fuel None (inr header :: (inr <$> rows)) speed start0 wall)
       !! j = Some t →
     tNow t = startOf start0 rows + Z.of_nat j * second ∧
     tFired t =
       bucketOf (Unix (startOf start0 rows) + Z.of_nat j) rows
         (built (Replay.importReplay ExportVersion siteURL parseRFC3339
                   encodeQuery fuel None (inr header :: (inr <$> rows)) speed
                   start0 wall))) ∧
  concat (tFired <$>
          ticks (Replay.importReplay ExportVersion siteURL parseRFC3339
                   encodeQuery fuel None (inr header :: (inr <$> rows)) speed
                   start0 wall))
  ≡ₚ (filter
        (λ p, Unix (startOf start0 rows) ≤ Unix (createdOf p.1)
              < Unix (startOf start0 rows) +
                Z.of_nat (length (ticks
                  (Replay.importReplay ExportVersion siteURL parseRFC3339
                     encodeQuery fuel None (inr header :: (inr <$> rows))
                     speed start0 wall))))
        (zip rows
           (built (Replay.importReplay ExportVersion siteURL parseRFC3339
                     encodeQuery fuel None (inr header :: (inr <$> rows))
                     speed start0 wall)))).*2.
Proof.
  intros Hv Hrows.
  destruct (loadLoop_total siteURL parseRFC3339 encodeQuery rows
              (initialLoad start0) Hrows) as (st & rs & Hload).
  rewrite (importReplay_replays ExportVersion siteURL parseRFC3339 encodeQuery
             fuel header (inr <$> rows) speed start0 wall st rs Hv Hload).
  cbn [ticks built].
  destruct (loadLoop_requests _ _ _ _ Hload) as (Hreq & Hstart).
  change (start (initialLoad start0)) with start0 in Hstart.
  rewrite <- Hstart.
  assert (∀ j t,
    (replayLoop fuel (sleepFor speed) wall 0 (start st) (requests st)).1 !! j
      = Some t →
    tFired t = bucketOf (Unix (start st) + Z.of_nat j) rows rs) as Hfired.
  { intros j t Ht. apply replayLoop_fired in Ht as ->. rewrite Hreq.
    simpl. by rewrite lookup_empty. }
  split.
  - intros j t Ht. split; [|by apply Hfired].
    by apply replayLoop_ticks in Ht as [? _].
  - rewrite (ticks_fired _ (λ u, bucketOf u rows rs) _ Hfired).
    apply (window_perm (λ p, Unix (createdOf p.1)) snd).
Qed.

(** With no more than 2^32 distinct sessions among the rows, two rows get
    the same address exactly when they have the same session; and the
    address of a row is a dotted quad of numbers from 0 to 255 exactly when
    fewer than 2^31 distinct sessions were seen before its session. *)
Theorem session_addresses_distinct_valid rows start0 st rs :
  loadLoop (inr <$> rows) (initialLoad start0) = (inr st, rs) →
  Z.of_nat (length (firstSeen (sessionOf <$> rows))) ≤ 2 ^ 32 →
  (∀ i j rowi rowj ri rj,
     rows !! i = Some rowi → rows !! j = Some rowj →
     rs !! i = Some ri → rs !! j = Some rj →
     (RemoteAddr ri = RemoteAddr rj ↔ sessionOf rowi = sessionOf rowj)) ∧
  (∀ i row r (k : nat),
     rows !! i = Some row → rs !! i = Some r →
     firstSeen (sessionOf <$> rows) !! k = Some (sessionOf row) →
     (validIPv4 (RemoteAddr r) ↔ Z.of_nat k < 2 ^ 31)).
Proof.
  intros Hload Hbound.
  destruct (loadLoop_addresses siteURL parseRFC3339 encodeQuery rows _ [] _ _
              Hload (addressesOf_initial start0)) as [Hreq Hfinal].
  destruct (Hfinal st eq_refl) as (Hlen & (_ & Hnd & _) & Hips).
  fold (firstSeen (sessionOf <$> rows)) in *.
  assert (∀ i row r, rows !! i = Some row → rs !! i = Some r →
            ∃ k : nat, firstSeen (sessionOf <$> rows) !! k = Some (sessionOf row) ∧
                       0 ≤ Z.of_nat k < 2 ^ 32 ∧
                       RemoteAddr r = synthIP (wrap32 (Z.of_nat k))) as Hrank.
  { intros i row r Hrow Hr. destruct (Hreq i r Hr) as (row' & k & Hrow' & Hk & ->).
    assert (row' = row) as -> by congruence.
    apply lookup_lt_Some in Hk as Hlt.
    exists k. split_and!; [done|lia|lia|done]. }
  split.
  - intros i j rowi rowj ri rj Hi Hj Hri Hrj.
    destruct (Hrank i rowi ri Hi Hri) as (ki & Hki & Hbi & ->).
    destruct (Hrank j rowj rj Hj Hrj) as (kj & Hkj & Hbj & ->).
    split.
    + intros Heq. apply synthIP_inj_all, wrap32_inj in Heq; [|lia..].
      assert (ki = kj) as -> by lia. congruence.
    + intros Heq. rewrite Heq in Hki.
      by rewrite (NoDup_lookup _ ki kj _ Hnd Hki Hkj).
  - intros i row r k Hrow Hr Hk.
    destruct (Hrank i row r Hrow Hr) as (k' & Hk' & Hb & ->).
    rewrite (NoDup_lookup _ k k' _ Hnd Hk Hk').
    rewrite synthIP_valid_iff by apply wrap32_int32.
    by apply wrap32_sign.
Qed.

End Props.

(** An instance: the three rows of [threeRows], all of one second. *)
Lemma loadLoop_buckets_witness :
  (∀ t, default [] (requests threeRowsLoaded !! t)
        = ReplayView.bucketOf demoParse t threeRows threeRequests) ∧
  start threeRowsLoaded = ReplayView.startOf demoParse zeroTime threeRows ∧
  (zeroTime ≠ zeroTime → start threeRowsLoaded = zeroTime).
Proof.
  apply (loadLoop_buckets demoURL demoParse demoEncode threeRows zeroTime
           threeRowsLoaded threeRequests).
  vm_compute. reflexivity.
Defined.

(** An instance: a row of two fields after a good row. *)
Lemma import_first_failing_read_witness :
  ∃ rs,
    Replay.importReplay demoVersion demoURL demoParse demoEncode 3 None
      (inr demoHeader :: (inr <$> [rowOf 0]) ++
       inr ["/"; "x"]%string :: [inr (rowOf 1)])
      1%float zeroTime lateClock
    = {| result := Some (Exit 1 (Some (fieldsError 2))); built := rs;
         ticks := [] |} ∧
    length rs = length [rowOf 0].
Proof.
  apply (import_first_failing_read demoVersion demoURL demoParse demoEncode 3
           demoHeader [rowOf 0] (inr ["/"; "x"]%string) [inr (rowOf 1)]
           (fieldsError 2) 1%float zeroTime lateClock).
  - vm_compute. reflexivity.
  - repeat constructor.
  - vm_compute. reflexivity.
Defined.

(** An instance: the file of one row, whose replay is going on. *)
Lemma replay_only_whole_files_witness :
  (None : option error) = None ∧
  ∃ header rows,
    oneRow = inr header :: (inr <$> rows) ∧
    Replay.wrongVersion demoVersion header = false ∧
    Forall (λ row, length row = 12%nat) rows ∧
    length (built (Replay.importReplay demoVersion demoURL demoParse
                     demoEncode 5 None oneRow 1%float zeroTime lateClock))
      = length rows.
Proof.
  apply (replay_only_whole_files demoVersion demoURL demoParse demoEncode 5
           None oneRow 1%float zeroTime lateClock).
  left. vm_compute. discriminate.
Defined.

(** An instance: four rows of three sessions over four seconds. *)
Lemma replay_fires_rows_by_second_witness :
  (∀ j t,
     ticks timedRun !! j = Some t →
     tNow t = ReplayView.startOf secondsParse zeroTime timedRows
              + Z.of_nat j * second ∧
     tFired t =
       ReplayView.bucketOf secondsParse
         (Unix (ReplayView.startOf secondsParse zeroTime timedRows)
          + Z.of_nat j) timedRows (built timedRun)) ∧
  concat (tFired <$> ticks timedRun)
  ≡ₚ (filter
        (λ p, Unix (ReplayView.startOf secondsParse zeroTime timedRows)
              ≤ Unix (ReplayView.createdOf secondsParse p.1)
              < Unix (ReplayView.startOf secondsParse zeroTime timedRows) +
                Z.of_nat (length (ticks timedRun)))
        (zip timedRows (built timedRun))).*2.
Proof.
  apply (replay_fires_rows_by_second demoVersion demoURL secondsParse
           demoEncode 5 demoHeader timedRows 1%float zeroTime lateClock).
  - vm_compute. reflexivity.
  - repeat constructor.
Defined.

(** An instance: the three rows of [threeRows], of two sessions. *)
Lemma session_addresses_distinct_valid_witness :
  (∀ i j rowi rowj ri rj,
     threeRows !! i = Some rowi → threeRows !! j = Some rowj →
     threeRequests !! i = Some ri → threeRequests !! j = Some rj →
     (RemoteAddr ri = RemoteAddr rj ↔ sessionOf rowi = sessionOf rowj)) ∧
  (∀ i row r (k : nat),
     threeRows !! i = Some row → threeRequests !! i = Some r →
     firstSeen (sessionOf <$> threeRows) !! k = Some (sessionOf row) →
     (validIPv4 (RemoteAddr r) ↔ Z.of_nat k < 2 ^ 31)).
Proof.
  apply (session_addresses_distinct_valid demoURL demoParse demoEncode
           threeRows zeroTime threeRowsLoaded threeRequests).
  - vm_compute. reflexivity.
  - vm_compute. discriminate.
Defined.

End ReplayMore.

(** ** The import command *)

Module CliProps.
Import Http Cli ReplayProps.

(** *** [strings.HasSuffix] *)

Lemma append_assoc (a b c : string) : (a +:+ b) +:+ c = a +:+ (b +:+ c).
Proof.
  induction a as [|x a IH]; [by rewrite !append_nil|].
  by rewrite !append_cons, IH.
Qed.

Lemma append_empty_r (a : string) : a +:+ "" = a.
Proof. induction a as [|x a IH]; [done|]. by rewrite append_cons, IH. Qed.

Lemma rev_app_append s : ∀ acc, String.rev_app s acc = String.rev s +:+ acc.
Proof.
  unfold String.rev. induction s as [|x s IH]; intros acc; simpl.
  { by rewrite append_nil. }
  rewrite (IH (String x acc)), (IH (String x "")), append_assoc.
  by rewrite append_cons, append_nil.
Qed.

Lemma rev_append a : ∀ b, String.rev (a +:+ b) = String.rev b +:+ String.rev a.
Proof.
  induction a as [|x a IH]; intros b.
  { rewrite append_nil. by rewrite append_empty_r. }
  rewrite append_cons. unfold String.rev at 1 3. simpl.
  rewrite !rev_app_append, IH, append_assoc. done.
Qed.

Lemma rev_rev s : String.rev (String.rev s) = s.
Proof.
  induction s as [|x s IH]; [done|].
  unfold String.rev at 2. simpl. rewrite rev_app_append, rev_append, IH.
  by vm_compute.
Qed.

Lemma prefix_append p : ∀ s, String.prefix p s = true ↔ ∃ r, s = p +:+ r.
Proof.
  induction p as [|x p IH]; intros s.
  { destruct s; simpl; (split; [intros _; eexists; by rewrite append_nil|done]). }
  destruct s as [|y s]; simpl.
  { split; [done|]. intros [r Hr]. by rewrite append_cons in Hr. }
  destruct (Ascii.ascii_dec x y) as [->|Hne].
  - rewrite IH. split; intros [r Hr]; exists r.
    + by rewrite append_cons, Hr.
    + rewrite append_cons in Hr. congruence.
  - split; [done|]. intros [r Hr]. rewrite append_cons in Hr. congruence.
Qed.

(** The model of [strings.HasSuffix] says that the string ends with the
    suffix. *)
Lemma HasSuffix_ends s suffix :
  HasSuffix s suffix = true ↔ ∃ p, s = p +:+ suffix.
Proof.
  unfold HasSuffix. rewrite prefix_append. split.
  - intros [r Hr]. exists (String.rev r).
    by rewrite <- (rev_rev s), Hr, rev_append, rev_rev.
  - intros [p ->]. exists (String.rev p). by rewrite rev_append.
Qed.

(** *** The callback *)

Lemma wrapInt_add size a b :
  wrapInt size (wrapInt size a + b) = wrapInt size (a + b).
Proof.
  unfold wrapInt. f_equal.
  replace ((a + intRange size) `mod` (2 * intRange size) - intRange size + b
           + intRange size)
    with ((a + intRange size) `mod` (2 * intRange size) + b) by lia.
  rewrite Zplus_mod_idemp_l. f_equal. lia.
Qed.

Lemma wrapInt_small size z :
  - intRange size ≤ z < intRange size → wrapInt size z = z.
Proof.
  intros Hz. unfold wrapInt. rewrite Z.mod_small; [lia|].
  destruct size; simpl in *; lia.
Qed.

Lemma totalHits_nonneg batches : 0 ≤ totalHits batches.
Proof.
  unfold totalHits. induction batches as [|b batches IH]; simpl; lia.
Qed.

Lemma callbacks_log size fs : ∀ n,
  ((callbacks size n fs).1 = None ∧ Forall flushed fs ∨
   (callbacks size n fs).1 = Some 1 ∧ ¬ Forall flushed fs) ∧
  (∀ j m, (callbacks size n fs).2 !! j = Some (LogPersisted m) →
     ∃ batches, persisted <$> take (S j) fs = inr <$> batches ∧
                m = wrapInt size (n + totalHits batches)) ∧
  (∀ j e, (callbacks size n fs).2 !! j = Some (LogError e) →
     S j = length (callbacks size n fs).2 ∧
     (callbacks size n fs).1 = Some 1).
Proof.
  induction fs as [|f fs IH]; intros n.
  { simpl. split_and!; [by left|by intros j m; rewrite lookup_nil|
                        by intros j e; rewrite lookup_nil]. }
  cbn [callbacks].
  destruct (persisted f) as [e|hits] eqn:Hp.
  { simpl. split_and!.
    - right. split; [done|]. intros Hall.
      apply Forall_cons in Hall as [[[hits Hh] _] _]. congruence.
    - intros [|j] m; simpl; [done|by rewrite lookup_nil].
    - intros [|j] e'; simpl; [done|by rewrite lookup_nil]. }
  destruct (updated f) as [e|] eqn:Hu.
  { simpl. split_and!.
    - right. split; [done|]. intros Hall.
      apply Forall_cons in Hall as [[_ ?] _]. congruence.
    - intros [|j] m; simpl; [done|by rewrite lookup_nil].
    - intros [|j] e'; simpl; [done|by rewrite lookup_nil]. }
  destruct (IH (wrapInt size (n + Z.of_nat (length hits))))
    as (Hend & Hlog & Herr).
  cbn [fst snd]. split_and!.
  - destruct Hend as [[-> Hall]|[-> Hnot]].
    + left. split; [done|]. apply Forall_cons. split; [|done].
      split; [by exists hits|done].
    + right. split; [done|]. intros Hall.
      apply Forall_cons in Hall as [_ ?]. done.
  - intros [|j] m.
    + intros [= <-]. exists [hits]. simpl. rewrite Hp. split; [done|].
      unfold totalHits. simpl. f_equal. lia.
    + intros Hj. apply Hlog in Hj as (batches & Hb & ->).
      exists (hits :: batches). rewrite firstn_cons, !fmap_cons, Hp, Hb.
      split; [done|]. rewrite wrapInt_add. unfold totalHits. simpl.
      f_equal. lia.
  - intros [|j] e; [done|]. intros Hj. apply Herr in Hj as [Hlen ->].
    split; [|done]. simpl. by f_equal.
Qed.

Section Command.
Variable File : Type.
Variable DB : Type.
Variable Site : Type.
Variable stdin : File.
Variable openFile : string → error + File.
Variable gzipReader : File → error + File.
Variable connectDB : string → bool → error + DB.
Variable siteByID : DB → Z → error + Site.
Variable listSites : DB → error + list Site.
Variable parseStart : string → string + Z.
Variable quoted : string → string.
Variable csvOf : File → list (error + list string).
Variable siteURL : Site → string.
Variable deleteAll : DB → Site → option error.
Variable Import : DB → Site → File → bool → list flush.
Variable size : intSize.
Variable ExportVersion : string.
Variable parseRFC3339 : string → option Z.
Variable encodeQuery : list (string * string) → string.
Variable fuel : nat.
Variable wall : nat → Z.

Abbreviation openInput := (Cli.openInput File stdin openFile gzipReader).
Abbreviation chooseSite := (Cli.chooseSite DB Site siteByID listSites).
Abbreviation replay :=
  (Cli.replay File DB Site csvOf siteURL deleteAll ExportVersion parseRFC3339
     encodeQuery fuel wall).
Abbreviation importTo :=
  (Cli.importTo File DB Site parseStart quoted csvOf siteURL deleteAll Import
     size ExportVersion parseRFC3339 encodeQuery fuel wall).
Abbreviation cImport :=
  (Cli.cImport File DB Site stdin openFile gzipReader connectDB siteByID
     listSites parseStart quoted csvOf siteURL deleteAll Import size
     ExportVersion parseRFC3339 encodeQuery fuel wall).

(** How [importReplay] can end. *)
Lemma replay_finish db site fp speed s :
  replay db site fp speed s = Runs ∨
  replay db site fp speed s = Returns 0 None ∨
  (∃ e, replay db site fp speed s = Returns 1 (Some e)) ∨
  ∃ p, replay db site fp speed s = Panics p.
Proof.
  unfold Cli.replay, Replay.importReplay.
  destruct (deleteAll db site) as [e|]; [right; right; left; by eexists|].
  destruct (csvOf fp) as [|[e|header] rows];
    [right; right; left; by eexists..|].
  destruct (Replay.wrongVersion _ _).
  { destruct header as [|[|c h] rest]; simpl;
      [right; right; right; by eexists..|right; right; left; by eexists]. }
  destruct (Replay.loadLoop _ _ _ _ _) as [[e|st] rs];
    [right; right; left; by eexists|].
  cbn [Replay.result]. destruct (Replay.replayLoop _ _ _ _ _ _).2; simpl; auto.
Qed.

Lemma importTo_returns fl db site fp code err log :
  importTo fl db site fp = (Returns code err, log) →
  code = 0 ∧ err = None ∨ code = 1 ∧ is_Some err ∧ log = [].
Proof.
  unfold Cli.importTo. destruct (fReplay fl).
  - case_bool_decide; [intros [= <- <- <-]; right; by eauto|].
    assert (∀ s, (replay db site fp (fSpeed fl) s, @nil logLine)
                 = (Returns code err, log) →
                 code = 0 ∧ err = None ∨ code = 1 ∧ is_Some err ∧ log = [])
      as Hreplay.
    { intros s.
      destruct (replay_finish db site fp (fSpeed fl) s)
        as [->|[->|[[e ->]|[p ->]]]]; intros [= ]; subst; eauto. }
    case_bool_decide; [|by apply Hreplay].
    destruct (parseStart (fStart fl)) as [msg|s]; [|by apply Hreplay].
    intros [= <- <- <-]. right. by eauto.
  - case_bool_decide.
    + destruct (callbacks _ _ _).1; intros [= ]; subst. by left.
    + intros [= <- <- <-]. right. by eauto.
Qed.

(** The codes the command returns: 0 without an error, 1 or 2 with one;
    2 stands for a database that could not be connected to, after the one
    file has been opened, and for nothing else. Whenever a code other than
    0 is returned nothing has been logged. *)
Theorem cImport_exit_codes parsed code err log :
  cImport parsed = (Returns code err, log) →
  code = 0 ∧ err = None ∨
  code = 1 ∧ is_Some err ∧ log = [] ∨
  code = 2 ∧ log = [] ∧
    ∃ fl name fp e,
      parsed = inr (fl, [name]) ∧ openInput name = inr fp ∧
      connectDB (fDB fl) (fCreatedb fl) = inl e ∧ err = Some e.
Proof.
  unfold Cli.cImport.
  destruct parsed as [e|[fl files]];
    [intros [= <- <- <-]; right; left; by eauto|].
  destruct files as [|name [|name' files]];
    [intros [= <- <- <-]; right; left; by eauto| |
     intros [= <- <- <-]; right; left; by eauto].
  destruct (openInput name) as [e|fp] eqn:Hopen;
    [intros [= <- <- <-]; right; left; by eauto|].
  destruct (connectDB (fDB fl) (fCreatedb fl)) as [e|db] eqn:Hdb.
  { intros [= <- <- <-]. right. right. split_and!; [done|done|].
    by exists fl, name, fp, e. }
  destruct (chooseSite db (fSite fl)) as [e|site];
    [intros [= <- <- <-]; right; left; by eauto|].
  intros Hto. apply importTo_returns in Hto as [?|?]; auto.
Qed.

(** An import without [-replay] of a CSV file: the command returns 0 when
    every flush went through and leaves through [os.Exit(1)] when one did
    not; each [persisted %d hits] line of the log carries the number of
    hits of all the flushes so far as the [int] counter holds it, which is
    that number itself as long as it is within the range of [int]; and an
    error is the last line of the log. *)
Theorem cImport_csv_running_total fl name fp db site :
  openInput name = inr fp →
  connectDB (fDB fl) (fCreatedb fl) = inr db →
  chooseSite db (fSite fl) = inr site →
  fReplay fl = false → fFormat fl = "csv"%string →
  ((cImport (inr (fl, [name]))).1 = Returns 0 None ∧
     Forall flushed (Import db site fp (fClear fl)) ∨
   (cImport (inr (fl, [name]))).1 = Exits 1 ∧
     ¬ Forall flushed (Import db site fp (fClear fl))) ∧
  (∀ j m, (cImport (inr (fl, [name]))).2 !! j = Some (LogPersisted m) →
     ∃ batches,
       persisted <$> take (S j) (Import db site fp (fClear fl))
         = inr <$> batches ∧
       m = wrapInt size (totalHits batches) ∧
       (totalHits batches < intRange size → m = totalHits batches)) ∧
  (∀ j e, (cImport (inr (fl, [name]))).2 !! j = Some (LogError e) →
     S j = length (cImport (inr (fl, [name]))).2 ∧
     (cImport (inr (fl, [name]))).1 = Exits 1).
Proof.
  intros Hopen Hdb Hsite Hreplay Hformat.
  unfold Cli.cImport. rewrite Hopen, Hdb, Hsite.
  unfold Cli.importTo. rewrite Hreplay, Hformat.
  rewrite bool_decide_eq_true_2 by done. cbn [fst snd].
  destruct (callbacks_log size (Import db site fp (fClear fl)) 0)
    as (Hend & Hlog & Herr).
  split_and!.
  - destruct Hend as [[-> ?]|[-> ?]]; [by left|by right].
  - intros j m Hj. apply Hlog in Hj as (batches & ? & ->).
    exists batches. rewrite Z.add_0_l. split_and!; [done|done|].
    intros Hfits. apply wrapInt_small.
    pose proof (totalHits_nonneg batches).
    assert (0 < intRange size) by (by destruct size). lia.
  - intros j e Hj. apply Herr in Hj as [? ->]. done.
Qed.

(** With [-replay] the statistics of the site are deleted whether or not
    [-clear] is given, before anything is read: when the deletion fails
    the command returns 1 with its error, whatever the file holds. *)
Theorem cImport_replay_deletes_first fl name fp db site e :
  openInput name = inr fp →
  connectDB (fDB fl) (fCreatedb fl) = inr db →
  chooseSite db (fSite fl) = inr site →
  fReplay fl = true → fFormat fl = "csv"%string →
  (fStart fl = ""%string ∨ ∃ s, parseStart (fStart fl) = inr s) →
  deleteAll db site = Some e →
  cImport (inr (fl, [name])) = (Returns 1 (Some e), []).
Proof.
  intros Hopen Hdb Hsite Hreplay Hformat Hstart Hdel.
  unfold Cli.cImport. rewrite Hopen, Hdb, Hsite.
  unfold Cli.importTo. rewrite Hreplay, Hformat.
  rewrite bool_decide_eq_false_2 by (by intros []).
  assert (∀ s, replay db site fp (fSpeed fl) s = Returns 1 (Some e)) as Hr.
  { intros s. unfold Cli.replay, Replay.importReplay. by rewrite Hdel. }
  destruct Hstart as [->|[s Hs]].
  - rewrite bool_decide_eq_false_2 by (by intros []). by rewrite Hr.
  - case_bool_decide; [rewrite Hs|]; by rewrite Hr.
Qed.

End Command.

(** An instance: the database flag names a database that is not there. *)
Lemma cImport_exit_codes_witness :
  2 = 0 ∧ Some (Plain "unable to open database file") = None ∨
  2 = 1 ∧ is_Some (Some (Plain "unable to open database file")) ∧
    @nil logLine = [] ∨
  2 = 2 ∧ @nil logLine = [] ∧
    ∃ fl name fp e,
      @inr error _ (noDBFlags, ["-"%string]) = inr (fl, [name]) ∧
      Cli.openInput string "-" demoOpen demoGzip name = inr fp ∧
      demoConnect (fDB fl) (fCreatedb fl) = inl e ∧
      Some (Plain "unable to open database file") = Some e.
Proof.
  apply (cImport_exit_codes string unit Z "-" demoOpen demoGzip demoConnect
           demoSiteByID demoListSites demoParseStart demoQuoted demoCsvOf
           demoSiteURL demoDeleteAll demoImport Bits64 Replay.demoVersion
           Replay.demoParse Replay.demoEncode 5 Replay.lateClock
           (inr (noDBFlags, ["-"%string])) 2
           (Some (Plain "unable to open database file")) []).
  vm_compute. reflexivity.
Defined.

(** An instance: the import of the standard input, flushed twice. *)
Lemma cImport_csv_running_total_witness :
  ((demoCommand demoDeleteAll (inr (defaultFlags, ["-"%string]))).1
     = Returns 0 None ∧
     Forall flushed (demoImport tt 1 "-" (fClear defaultFlags)) ∨
   (demoCommand demoDeleteAll (inr (defaultFlags, ["-"%string]))).1 = Exits 1 ∧
     ¬ Forall flushed (demoImport tt 1 "-" (fClear defaultFlags))) ∧
  (∀ j m, (demoCommand demoDeleteAll (inr (defaultFlags, ["-"%string]))).2 !! j
          = Some (LogPersisted m) →
     ∃ batches,
       persisted <$> take (S j) (demoImport tt 1 "-" (fClear defaultFlags))
         = inr <$> batches ∧
       m = wrapInt Bits64 (totalHits batches) ∧
       (totalHits batches < intRange Bits64 → m = totalHits batches)) ∧
  (∀ j e, (demoCommand demoDeleteAll (inr (defaultFlags, ["-"%string]))).2 !! j
          = Some (LogError e) →
     S j = length (demoCommand demoDeleteAll
                     (inr (defaultFlags, ["-"%string]))).2 ∧
     (demoCommand demoDeleteAll (inr (defaultFlags, ["-"%string]))).1
       = Exits 1).
Proof.
  apply (cImport_csv_running_total string unit Z "-" demoOpen demoGzip
           demoConnect demoSiteByID demoListSites demoParseStart demoQuoted
           demoCsvOf demoSiteURL demoDeleteAll demoImport Bits64
           Replay.demoVersion Replay.demoParse Replay.demoEncode 5
           Replay.lateClock defaultFlags "-" "-" tt 1);
    vm_compute; reflexivity.
Defined.

(** An instance: a replay on a database that is locked. *)
Lemma cImport_replay_deletes_first_witness :
  demoCommand demoDeleteFails (inr (replayFlags, ["-"%string]))
  = (Returns 1 (Some lockedError), []).
Proof.
  apply (cImport_replay_deletes_first string unit Z "-" demoOpen demoGzip
           demoConnect demoSiteByID demoListSites demoParseStart demoQuoted
           demoCsvOf demoSiteURL demoDeleteFails demoImport Bits64
           Replay.demoVersion Replay.demoParse Replay.demoEncode 5
           Replay.lateClock replayFlags "-" "-" tt 1 lockedError);
    [vm_compute; reflexivity..| |vm_compute; reflexivity].
  left. vm_compute. reflexivity.
Defined.

(** The counter is an [int]: on a build with 32 bits, one more hit after
    2^31 - 1 of them is logged as a negative number. *)
Example callbacks_counter_wraps :
  callbacks Bits32 2147483647
    [{| persisted := inr [Count.bareHit "/a"]; updated := None |}]
  = (None, [LogPersisted (-2147483648)]).
Proof. vm_compute. reflexivity. Qed.

(** The log of the instance: two hits, then three in all. *)
Example demoCommand_log :
  demoCommand demoDeleteAll (inr (defaultFlags, ["-"%string]))
  = (Returns 0 None, [LogPersisted 2; LogPersisted 3]).
Proof. vm_compute. reflexivity. Qed.

End CliProps.
